(** * autoheartwatch: the PPG heart-rate core (src/autoheartwatch.py)

    A shallow embedding of the signal pipeline ([Biquad], [PTAGC],
    [PPG.preprocess]) and of the period detector ([_compare], [compare],
    [trough], [PPG._get_heart_rate], [PPG.get_heart_rate]).

    Conventions of the embedding.
    - Python numbers that go through the filters are floats in the program;
      they are taken here as exact rationals ([Q]).  Rounding, overflow to
      infinity and NaN are therefore outside the model.
    - The sample buffer is [array.array("b")]: a sequence of bytes.  The
      viper routine [_compare] reads them through [ptr8], unsigned, and
      re-signs them itself, so the buffer is a [list byte].
    - The program runs under MicroPython ([micropython.viper], [ptr8]); its
      arrays store the low bits of an appended integer and do not check the
      range.
    - The accumulator of [_compare] is a native word in the program and an
      integer without bound here; [spec_dissimilarity_bound] gives the size
      of buffer under which the two agree.
    - A Python exception is an outcome [Raises]; a method that mutates its
      object is a function from the object to an outcome and the new object,
      so that the mutations made before an exception are kept.
    - The application class [HeartApp] (display, timers) drives the session
      and is not part of the core; it is not embedded. *)

From Stdlib Require Import ZArith QArith Qabs List Bool Lia Lqa.
From Stdlib Require Import Qfield.
From Stdlib.Strings Require Import Byte.
Import ListNotations.
Local Open Scope Z_scope.

(** ** Python outcomes *)

Module Py.

Inductive exn : Type :=
| ZeroDivisionError
| InvalidRead.  (* a [ptr8] load outside the viewed bytes: no defined value *)

Inductive outcome (A : Type) : Type :=
| Returns (a : A)
| Raises (e : exn).
Arguments Returns {A} a.
Arguments Raises {A} e.

Definition obind {A B} (m : outcome A) (k : A -> outcome B) : outcome B :=
  match m with
  | Returns a => k a
  | Raises e => Raises e
  end.

(** A method of an object of type [S]. *)
Definition M (S A : Type) : Type := S -> outcome A * S.

Definition ret {S A} (a : A) : M S A := fun s => (Returns a, s).

Definition bind {S A B} (m : M S A) (k : A -> M S B) : M S B :=
  fun s =>
    match m s with
    | (Returns a, s') => k a s'
    | (Raises e, s') => (Raises e, s')
    end.

Definition gets {S A} (f : S -> A) : M S A := fun s => (Returns (f s), s).
Definition modify {S} (f : S -> S) : M S unit := fun s => (Returns tt, f s).
Definition lift {S A} (r : outcome A) : M S A := fun s => (r, s).

(** Calling a method of an attribute: [get] reads the attribute, [set]
    stores the mutated object back. *)
Definition on {S T A} (get : S -> T) (set : S -> T -> S) (m : M T A) : M S A :=
  fun s => let (r, t') := m (get s) in (r, set s t').

(** [a // b] on integers. *)
Definition floordiv (a b : Z) : outcome Z :=
  if b =? 0 then Raises ZeroDivisionError else Returns (a / b).

(** [a / b] on numbers. *)
Definition truediv (a b : Q) : outcome Q :=
  if Qeq_bool b 0 then Raises ZeroDivisionError else Returns (a / b)%Q.

(** [int(x)]: truncation toward zero. *)
Definition int (x : Q) : Z := Z.quot (Qnum x) (Zpos (Qden x)).

(** [a > b] and [a < b] on numbers. *)
Definition gt (a b : Q) : bool := negb (Qle_bool a b).
Definition lt (a b : Q) : bool := negb (Qle_bool b a).

(** The bound of a slice: a negative index counts from the end, and both
    are clamped to the sequence. *)
Definition slice_index (len i : Z) : Z :=
  if i <? 0 then Z.max (i + len) 0 else Z.min i len.

(** [d[start:]] *)
Definition slice_from {A} (d : list A) (start : Z) : list A :=
  skipn (Z.to_nat (slice_index (Z.of_nat (length d)) start)) d.

(** [d[:stop]] *)
Definition slice_to {A} (d : list A) (stop : Z) : list A :=
  firstn (Z.to_nat (slice_index (Z.of_nat (length d)) stop)) d.

(** What [array("b").append(v)] stores: the low byte of [v]. *)
Definition byte_of_int (v : Z) : byte :=
  match Byte.of_N (Z.to_N (v mod 256)) with
  | Some b => b
  | None => x00
  end.

(** What [array("H").append(v)] stores: the low sixteen bits of [v]. *)
Definition half_of_int (v : Z) : Z := v mod 65536.

(** The value an [array("b")] element stands for. *)
Definition signed8 (b : byte) : Z :=
  let v := Z.of_N (Byte.to_N b) in
  if 127 <? v then v - 256 else v.

End Py.

Export Py.

Declare Scope py_scope.
Delimit Scope py_scope with py.
Notation "x <- m ;; k" := (Py.bind m (fun x => k))
  (at level 61, m at next level, right associativity) : py_scope.
Notation "m ;; k" := (Py.bind m (fun _ => k))
  (at level 61, right associativity) : py_scope.
Notation "x <~ m ;; k" := (Py.obind m (fun x => k))
  (at level 61, m at next level, right associativity) : py_scope.

(** ** The viper routine *)

(** [p[i]] for [p = ptr8(d)]. *)
Definition ptr8_load (p : list byte) (i : nat) : outcome Z :=
  match nth_error p i with
  | Some b => Returns (Z.of_N (Byte.to_N b))
  | None => Raises InvalidRead
  end.

(** The body of [for i in range(count)], from index [i] on, [n] iterations
    left, [e] the sum so far. *)
Fixpoint _compare_loop (p1 p2 : list byte) (i n : nat) (e : Z) : outcome Z :=
  match n with
  | O => Returns e
  | S n' =>
      (s1 <~ ptr8_load p1 i ;;
       let s1 := if 127 <? s1 then s1 - 256 else s1 in
       s2 <~ ptr8_load p2 i ;;
       let s2 := if 127 <? s2 then s2 - 256 else s2 in
       let d := s1 - s2 in
       _compare_loop p1 p2 (S i) n' (e + d * d))%py
  end.

Definition _compare (d1 d2 : list byte) (count shift : Z) : outcome Z :=
  _compare_loop d1 d2 0 (Z.to_nat count) 0.

(** ** Direct Form II biquad filter *)

Module Biquad.

Record t : Type := mk {
  _coeff : Q * Q * Q * Q * Q;
  _v1 : Q;
  _v2 : Q
}.

Definition init (b0 b1 b2 a1 a2 : Q) : t :=
  {| _coeff := (b0, b1, b2, a1, a2); _v1 := 0; _v2 := 0 |}.

Definition step (x : Q) : M t Q := fun self =>
  let '(c0, c1, c2, c3, c4) := _coeff self in
  let v1 := _v1 self in
  let v2 := _v2 self in
  let v := (x - (c3 * v1) - (c4 * v2))%Q in
  let y := ((c0 * v) + (c1 * v1) + (c2 * v2))%Q in
  (Returns y, {| _coeff := _coeff self; _v1 := v; _v2 := v1 |}).

End Biquad.

(** ** Peak tracking automatic gain control *)

Module PTAGC.

Record t : Type := mk {
  _peak : Q;
  _decay : Q;
  _boost : Q;
  _threshold : Q
}.

Definition set_peak (self : t) (peak : Q) : t :=
  {| _peak := peak; _decay := _decay self; _boost := _boost self;
     _threshold := _threshold self |}.

Definition init (start decay threshold : Q) : outcome t :=
  (boost <~ truediv 1 decay ;;
   Returns {| _peak := start; _decay := decay; _boost := boost;
              _threshold := threshold |})%py.

Definition step (spl : Q) : M t Q :=
  (* peak tracking *)
  (peak <- gets _peak ;;
   boost <- gets _boost ;;
   decay <- gets _decay ;;
   let peak := if gt (Qabs spl) peak then (peak * boost)%Q else (peak * decay)%Q in
   modify (fun self => set_peak self peak) ;;
   (* rejection filter (clipper) *)
   threshold <- gets _threshold ;;
   if gt spl (peak * threshold) || lt spl (peak * - threshold) then ret 0%Q
   else
     (* booster *)
     spl <- lift (truediv (100 * spl) (2 * peak)) ;;
     ret spl)%py.

End PTAGC.

(** ** The PPG session *)

Module PPG.

Record t : Type := mk {
  _offset : Z;
  data : list byte;            (* array.array("b") *)
  debug : option (list Z);     (* None, or array.array("H") *)
  _hpf : Biquad.t;
  _agc : PTAGC.t;
  _lpf : Biquad.t;
  hrs_data : list Z            (* not an attribute: the sixteen-bit words the
                                  session has appended to the file hrs.data *)
}.

Definition set_data (self : t) (d : list byte) : t :=
  {| _offset := _offset self; data := d; debug := debug self;
     _hpf := _hpf self; _agc := _agc self; _lpf := _lpf self;
     hrs_data := hrs_data self |}.

Definition set_debug (self : t) (g : option (list Z)) : t :=
  {| _offset := _offset self; data := data self; debug := g;
     _hpf := _hpf self; _agc := _agc self; _lpf := _lpf self;
     hrs_data := hrs_data self |}.

Definition set_hpf (self : t) (f : Biquad.t) : t :=
  {| _offset := _offset self; data := data self; debug := debug self;
     _hpf := f; _agc := _agc self; _lpf := _lpf self;
     hrs_data := hrs_data self |}.

Definition set_agc (self : t) (a : PTAGC.t) : t :=
  {| _offset := _offset self; data := data self; debug := debug self;
     _hpf := _hpf self; _agc := a; _lpf := _lpf self;
     hrs_data := hrs_data self |}.

Definition set_lpf (self : t) (f : Biquad.t) : t :=
  {| _offset := _offset self; data := data self; debug := debug self;
     _hpf := _hpf self; _agc := _agc self; _lpf := f;
     hrs_data := hrs_data self |}.

Definition write (self : t) (words : list Z) : t :=
  {| _offset := _offset self; data := data self; debug := debug self;
     _hpf := _hpf self; _agc := _agc self; _lpf := _lpf self;
     hrs_data := hrs_data self ++ words |}.

Definition init (spl : Z) : outcome t :=
  (agc <~ PTAGC.init 20 (971 # 1000) 2 ;;
   Returns
     {| _offset := spl;
        data := [];
        debug := None;
        _hpf := Biquad.init (87033078 # 100000000) (-174066156 # 100000000)
                  (87033078 # 100000000) (-172377617 # 100000000)
                  (75754694 # 100000000);
        _agc := agc;
        _lpf := Biquad.init (11595249 # 100000000) (23190498 # 100000000)
                  (11595249 # 100000000) (-72168143 # 100000000)
                  (18549138 # 100000000);
        hrs_data := [] |})%py.

Definition preprocess (spl : Z) : M t Z :=
  (dbg <- gets debug ;;
   match dbg with
   | Some samples =>
       modify (fun self => set_debug self (Some (samples ++ [half_of_int spl])))
   | None => ret tt
   end ;;
   offset <- gets _offset ;;
   let spl := spl - offset in
   spl <- on _hpf set_hpf (Biquad.step (inject_Z spl)) ;;
   spl <- on _agc set_agc (PTAGC.step spl) ;;
   spl <- on _lpf set_lpf (Biquad.step spl) ;;
   let spl := int spl in
   modify (fun self => set_data self (data self ++ [byte_of_int spl])) ;;
   ret spl)%py.

(** The nested function [compare]. *)
Definition compare (d : list byte) (shift : Z) : outcome Z :=
  _compare (slice_from d shift) (slice_to d (- shift))
    (Z.of_nat (length d) - shift) shift.

(** The loop of the nested function [trough]: [for i in range(mn, mx + 1)]
    at [i], with [n] iterations left. *)
Fixpoint trough_loop (d : list byte) (z2 z1 i : Z) (n : nat) : outcome Z :=
  match n with
  | O => Returns (-1)
  | S n' =>
      (z <~ compare d i ;;
       if (z2 >? z1) && (z1 <? z) then Returns i
       else trough_loop d z1 z (i + 1) n')%py
  end.

Definition trough (d : list byte) (mn mx : Z) : outcome Z :=
  (z2 <~ compare d (mn - 2) ;;
   z1 <~ compare d (mn - 1) ;;
   trough_loop d z2 z1 mn (Z.to_nat (mx + 1 - mn)))%py.

(** The shifts at which [trough] calls [compare], in the order of the
    calls: the two seeds, then the loop until it returns. *)
Fixpoint trough_loop_calls (d : list byte) (z2 z1 i : Z) (n : nat) : list Z :=
  match n with
  | O => []
  | S n' =>
      i :: match compare d i with
           | Returns z =>
               if (z2 >? z1) && (z1 <? z) then []
               else trough_loop_calls d z1 z (i + 1) n'
           | Raises _ => []
           end
  end.

Definition trough_calls (d : list byte) (mn mx : Z) : list Z :=
  (mn - 2) ::
  match compare d (mn - 2) with
  | Returns z2 =>
      (mn - 1) ::
      match compare d (mn - 1) with
      | Returns z1 => trough_loop_calls d z2 z1 mn (Z.to_nat (mx + 1 - mn))
      | Raises _ => []
      end
  | Raises _ => []
  end.

Definition _get_heart_rate : M t (option Z) :=
  (data <- gets data ;;
   lift
     ((* Search initially from ~210 to 30 bpm *)
      t0 <~ trough data 7 48 ;;
      if t0 <? 0 then Returns None
      else
        (* Check the second cycle ... *)
        let t1 := t0 * 2 in
        t1 <~ trough data (t1 - 5) (t1 + 5) ;;
        if t1 <? 0 then Returns None
        else
          (* ... and the third *)
          t2 <~ floordiv (t1 * 3) 2 ;;
          t2 <~ trough data (t2 - 5) (t2 + 4) ;;
          if t2 <? 0 then Returns None
          else
            t3 <~ floordiv (t2 * 4) 3 ;;
            t3 <~ trough data (t3 - 4) (t3 + 4) ;;
            if t3 <? 0 then
              hr <~ floordiv (60 * 24 * 3) t2 ;; Returns (Some hr)
            else
              hr <~ floordiv (60 * 24 * 4) t3 ;; Returns (Some hr)))%py.

(** [now] is what [watch.rtc.get_localtime()] answers during the call. *)
Definition get_heart_rate (now : list Z) : M t (option Z) :=
  (d <- gets data ;;
   if Z.of_nat (length d) <? 200 then ret None
   else
     hr <- _get_heart_rate ;;
     (* Clear out the accumulated data *)
     modify (fun self => set_data self []) ;;
     (* Dump the debug data *)
     dbg <- gets debug ;;
     match dbg with
     | Some ((_ :: _) as samples) =>
         modify (fun self =>
                   write self ([65535] ++ map half_of_int (firstn 6 now)
                                 ++ samples)) ;;
         modify (fun self => set_debug self (Some []))
     | _ => ret tt
     end ;;
     ret hr)%py.

Definition enable_debug : M t unit :=
  (dbg <- gets debug ;;
   match dbg with
   | None => modify (fun self => set_debug self (Some []))
   | Some _ => ret tt
   end)%py.

End PPG.

(** ** The application, while it is in the foreground *)

(** Between [foreground] and [background] the attribute [_hrdata] holds a
    PPG session and [_x] a column; this is the state embedded here.  The
    sensor, the clock and the theme are inputs; the calls made on
    [wasp.watch.drawable] are kept in the order they are made. *)
Module HeartApp.

Inductive theme_key : Type := bright | spot1.

Inductive drawn : Type :=
| set_color (color : Z)
| string_bpm (hr : option Z) (x y width : Z)  (* "{} bpm".format(hr) *)
| fill (bg x y w h : Z).

Record t : Type := mk {
  _debug : bool;
  _hrdata : PPG.t;
  _x : Z;
  screen : list drawn          (* not an attribute: the calls on the drawable *)
}.

Definition set_hrdata (self : t) (p : PPG.t) : t :=
  {| _debug := _debug self; _hrdata := p; _x := _x self;
     screen := screen self |}.

Definition set_x (self : t) (x : Z) : t :=
  {| _debug := _debug self; _hrdata := _hrdata self; _x := x;
     screen := screen self |}.

Definition draw (c : drawn) : M t unit :=
  modify (fun self =>
            {| _debug := _debug self; _hrdata := _hrdata self; _x := _x self;
               screen := screen self ++ [c] |}).

(** [reading] is what [wasp.watch.hrs.read_hrs()] answers and [now] what the
    clock answers, should it be asked. *)
Definition _subtick (theme : theme_key -> Z) (reading : Z) (now : list Z)
  : M t unit :=
  (spl <- on _hrdata set_hrdata (PPG.preprocess reading) ;;
   d <- gets (fun self => PPG.data (_hrdata self)) ;;
   (if Z.of_nat (length d) >=? 240 then
      draw (set_color (theme bright)) ;;
      hr <- on _hrdata set_hrdata (PPG.get_heart_rate now) ;;
      draw (string_bpm hr 0 6 240)
    else ret tt) ;;
   (* Graph is orange by default... *)
   let color := theme spot1 in
   (* If the maths goes wrong lets show it in the chart! *)
   let color := if (spl >? 100) || (spl <? -100) then 65535 else color in
   let spl := if (spl >? 104) || (spl <? -104) then 0 else spl in
   let spl := spl + 104 in
   x <- gets _x ;;
   draw (fill 0 x 32 1 (208 - spl)) ;;
   draw (fill color x (239 - spl) 1 spl) ;;
   (if x <? 238 then draw (fill 0 (x + 1) 32 2 208) else ret tt) ;;
   let x := x + 2 in
   let x := if x >=? 240 then 0 else x in
   modify (fun self => set_x self x))%py.

(** The three sub-ticks of a tick; the waits on the timer between them only
    let time pass. *)
Definition tick (theme : theme_key -> Z) (r1 r2 r3 : Z) (n1 n2 n3 : list Z)
  : M t unit :=
  (_subtick theme r1 n1 ;;
   _subtick theme r2 n2 ;;
   _subtick theme r3 n3)%py.

End HeartApp.

(** ** The session's life *)

(** The states a session is reached in: built by [PPG(spl)], then driven by
    its methods (whatever their outcome). *)
Inductive reachable : PPG.t -> Prop :=
| reach_init spl self :
    PPG.init spl = Returns self -> reachable self
| reach_preprocess self spl :
    reachable self -> reachable (snd (PPG.preprocess spl self))
| reach_get_heart_rate self now :
    reachable self -> reachable (snd (PPG.get_heart_rate now self))
| reach_enable_debug self :
    reachable self -> reachable (snd (PPG.enable_debug self)).

(** ** The specification's reading of the detector *)

(** The signed sample at index [i]. *)
Definition sample (d : list byte) (i : nat) : Z := signed8 (nth i d x00).

(** [f 0 + ... + f (n - 1)] *)
Fixpoint sum_upto (n : nat) (f : nat -> Z) : Z :=
  match n with
  | O => 0
  | S k => sum_upto k f + f k
  end.

(** Section 4.4: the sum over the overlapping indices
    [0 .. len(buffer) - shift - 1] of [(buffer[i+shift] - buffer[i])^2]. *)
Definition spec_dissimilarity (d : list byte) (shift : Z) : Z :=
  let s := Z.to_nat shift in
  sum_upto (length d - s) (fun i => (sample d (i + s) - sample d i) ^ 2).

(** Section 4.5: the pattern [z2 > z1 and z1 < z] at shift [i]. *)
Definition spec_turns_up (d : list byte) (i : Z) : bool :=
  (spec_dissimilarity d (i - 2) >? spec_dissimilarity d (i - 1))
  && (spec_dissimilarity d (i - 1) <? spec_dissimilarity d i).

(** The [n] shifts from [i] on, and the shifts [mn .. mx], in increasing
    order. *)
Fixpoint shifts_from (i : Z) (n : nat) : list Z :=
  match n with
  | O => []
  | S n' => i :: shifts_from (i + 1) n'
  end.

Definition shifts (mn mx : Z) : list Z :=
  shifts_from mn (Z.to_nat (mx + 1 - mn)).

(** Section 4.5: the first shift of [min_shift .. max_shift] with the
    pattern, or "not found". *)
Definition spec_find_trough (d : list byte) (mn mx : Z) : option Z :=
  find (spec_turns_up d) (shifts mn mx).

(** Section 4.6: [bpm = (60 * sample_rate * cycles) // period]. *)
Definition spec_bpm (cycles period : Z) : Z := (60 * 24 * cycles) / period.

(** Section 4.6: the four stages. *)
Definition spec_estimate (d : list byte) : option Z :=
  match spec_find_trough d 7 48 with
  | None => None
  | Some t0 =>
      match spec_find_trough d (2 * t0 - 5) (2 * t0 + 5) with
      | None => None
      | Some t1 =>
          match spec_find_trough d ((3 * t1) / 2 - 5) ((3 * t1) / 2 + 4) with
          | None => None
          | Some t2 =>
              match spec_find_trough d ((4 * t2) / 3 - 4) ((4 * t2) / 3 + 4) with
              | None => Some (spec_bpm 3 t2)
              | Some t3 => Some (spec_bpm 4 t3)
              end
          end
      end
  end.

(** The state [get_heart_rate] leaves once the 200 samples are there: the
    buffer is emptied, and a non-empty debug trace is written out and
    restarted. *)
Definition after_estimate (now : list Z) (self : PPG.t) : PPG.t :=
  let cleared := PPG.set_data self [] in
  match PPG.debug self with
  | Some ((_ :: _) as samples) =>
      PPG.set_debug
        (PPG.write cleared
           ([65535] ++ map half_of_int (firstn 6 now) ++ samples))
        (Some [])
  | _ => cleared
  end.

(** The raw sample is mirrored into the debug trace when there is one. *)
Definition traced (self : PPG.t) (spl : Z) : option (list Z) :=
  match PPG.debug self with
  | Some samples => Some (samples ++ [half_of_int spl])
  | None => None
  end.

(** The gain control can divide: its peak is positive and stays so under
    either factor. *)
Definition agc_live (a : PTAGC.t) : Prop :=
  (0 < PTAGC._peak a)%Q /\ (0 < PTAGC._decay a)%Q /\ (0 < PTAGC._boost a)%Q.

(** The coefficients [PPG(spl)] gives the low-pass filter. *)
Definition lpf_coeff : Q * Q * Q * Q * Q :=
  (11595249 # 100000000, 23190498 # 100000000, 11595249 # 100000000,
   -72168143 # 100000000, 18549138 # 100000000).

(** A region the registers of the low-pass filter do not leave while its
    input stays within [-100, 100]. *)
Definition lpf_bounded (f : Biquad.t) : Prop :=
  Biquad._coeff f = lpf_coeff
  /\ (-260 <= Biquad._v1 f <= 260)%Q
  /\ (-260 <= Biquad._v2 f <= 260)%Q
  /\ (-160 <= (72168143 # 100000000) * Biquad._v1 f
              - (18549138 # 100000000) * Biquad._v2 f <= 160)%Q.

(** What holds of a session from its construction on. *)
Definition session_inv (self : PPG.t) : Prop :=
  agc_live (PPG._agc self)
  /\ PTAGC._threshold (PPG._agc self) = 2%Q
  /\ lpf_bounded (PPG._lpf self).

(** The term the loop of [_compare] adds at index [i] when it is given
    [d[s:]] and [d[:-s]]. *)
Definition overlap_term (d : list byte) (s i : nat) : Z :=
  (sample d (i + s) - sample d i) ^ 2.

(** The peak [PTAGC.step] stores on the sample [spl]. *)
Definition updated_peak (self : PTAGC.t) (spl : Q) : Q :=
  if gt (Qabs spl) (PTAGC._peak self)
  then (PTAGC._peak self * PTAGC._boost self)%Q
  else (PTAGC._peak self * PTAGC._decay self)%Q.

(** ** Shapes of a dissimilarity curve *)

Definition strict_local_min (c : Z -> Z) (m : Z) : Prop :=
  c m < c (m - 1) /\ c m < c (m + 1).

(** Over the scanned shifts [mn - 2 .. mx] the curve has one strict local
    minimum, and it is at [m]. *)
Definition single_trough (c : Z -> Z) (mn mx m : Z) : Prop :=
  mn - 2 < m < mx /\ strict_local_min c m /\
  forall j, mn - 2 < j < mx -> strict_local_min c j -> j = m.

Definition strictly_increasing (c : Z -> Z) (lo hi : Z) : Prop :=
  forall i, lo <= i < hi -> c i < c (i + 1).

Definition strictly_decreasing (c : Z -> Z) (lo hi : Z) : Prop :=
  forall i, lo <= i < hi -> c (i + 1) < c i.

(** ** Sample buffers used in the examples *)

(** A triangle wave of period 24 and amplitude 48, two hundred samples. *)
Definition triangle : list byte :=
  map (fun i => byte_of_int (Z.abs (Z.of_nat i mod 24 - 12) * 8 - 48)) (seq 0 200).

(** A zig-zag of period 4, twelve samples. *)
Definition zigzag : list byte :=
  map byte_of_int [0; 5; 0; -5; 0; 5; 0; -5; 0; 5; 0; -5].

(** Two hundred samples with pulses 48, 52 and 47 samples apart on a
    baseline of -10, and the rise of a further pulse at the very end. *)
Definition slowing_pulse : list byte :=
  map byte_of_int
    ([30; 10] ++ repeat (-10) 45 ++ [10; 30; 10] ++ repeat (-10) 49
     ++ [10; 30; 10] ++ repeat (-10) 44 ++ [10; 30; 10] ++ repeat (-10) 50
     ++ [10]).

(** A session at rest: attributes as [PPG(spl)] sets them, except for the
    buffer and the peak of the gain control. *)
Definition session_with (offset : Z) (d : list byte) (peak : Q) : PPG.t :=
  {| PPG._offset := offset;
     PPG.data := d;
     PPG.debug := None;
     PPG._hpf := Biquad.init (87033078 # 100000000) (-174066156 # 100000000)
                   (87033078 # 100000000) (-172377617 # 100000000)
                   (75754694 # 100000000);
     PPG._agc := {| PTAGC._peak := peak; PTAGC._decay := 971 # 1000;
                    PTAGC._boost := 1000 # 971; PTAGC._threshold := 2 |};
     PPG._lpf := Biquad.init (11595249 # 100000000) (23190498 # 100000000)
                   (11595249 # 100000000) (-72168143 # 100000000)
                   (18549138 # 100000000);
     PPG.hrs_data := [] |}.

(** ** Further sample objects *)

(** The high-pass filter of a session, settled on the constant input [k]:
    both registers hold k / (1 + a1 + a2). *)
Definition hpf_settled (k : Q) : Biquad.t :=
  {| Biquad._coeff :=
       (87033078 # 100000000, -174066156 # 100000000, 87033078 # 100000000,
        -172377617 # 100000000, 75754694 # 100000000);
     Biquad._v1 := k / (1 + (-172377617 # 100000000) + (75754694 # 100000000));
     Biquad._v2 := k / (1 + (-172377617 # 100000000) + (75754694 # 100000000)) |}.

(** The gain control of a session, with the peak [peak]. *)
Definition agc_with (peak : Q) : PTAGC.t :=
  {| PTAGC._peak := peak; PTAGC._decay := 971 # 1000;
     PTAGC._boost := 1000 # 971; PTAGC._threshold := 2 |}.

(** The session after [preprocess] has been called on each of [samples] in
    turn, whatever the calls returned. *)
Fixpoint feed (samples : list Z) (self : PPG.t) : PPG.t :=
  match samples with
  | [] => self
  | spl :: rest => feed rest (snd (PPG.preprocess spl self))
  end.

(** A call on the drawable that stays within the 240 x 240 screen. *)
Definition in_screen (c : HeartApp.drawn) : Prop :=
  match c with
  | HeartApp.set_color _ => True
  | HeartApp.string_bpm _ x y width => 0 <= x /\ 0 <= y < 240 /\ x + width <= 240
  | HeartApp.fill _ x y w h =>
      0 <= x /\ 0 <= y /\ 0 <= w /\ 0 <= h /\ x + w <= 240 /\ y + h <= 240
  end.

(** What a sub-tick draws for the sample [v] at the column [x]. *)
Definition graph_calls (theme : HeartApp.theme_key -> Z) (v x : Z)
  : list HeartApp.drawn :=
  let color :=
    if (v >? 100) || (v <? -100) then 65535 else theme HeartApp.spot1 in
  let h := (if (v >? 104) || (v <? -104) then 0 else v) + 104 in
  [HeartApp.fill 0 x 32 1 (208 - h); HeartApp.fill color x (239 - h) 1 h]
  ++ (if x <? 238 then [HeartApp.fill 0 (x + 1) 32 2 208] else []).

(** * Properties *)

(** ** Python arithmetic *)

Lemma int_inject_Z (z : Z) : int (inject_Z z) = z.
Proof. unfold int, inject_Z. simpl. apply Z.quot_1_r. Qed.

(** [int] drops the fractional part, toward zero. *)
Lemma int_truncates (q : Q) :
  ((0 <= q)%Q -> (inject_Z (int q) <= q)%Q /\ (q < inject_Z (int q + 1))%Q)
  /\ ((q <= 0)%Q -> (inject_Z (int q - 1) < q)%Q /\ (q <= inject_Z (int q))%Q).
Proof.
  destruct q as [n d]. unfold int, Qle, Qlt. cbn [Qnum Qden inject_Z].
  pose proof (Z.quot_rem' n (Z.pos d)) as Hqr.
  split; intros Hn.
  - assert (0 <= Z.rem n (Z.pos d) < Z.pos d) by (apply Z.rem_bound_pos; lia).
    nia.
  - assert (- Z.pos d < Z.rem n (Z.pos d) <= 0)
      by (apply Z.rem_bound_pos_neg; lia).
    nia.
Qed.

(** ** Bytes and signed samples *)

Lemma byte_of_int_to_N (v : Z) :
  Z.of_N (Byte.to_N (byte_of_int v)) = v mod 256.
Proof.
  unfold byte_of_int.
  assert (Hr : 0 <= v mod 256 < 256) by (apply Z.mod_pos_bound; lia).
  destruct (Byte.of_N (Z.to_N (v mod 256))) as [b|] eqn:E.
  - apply Byte.to_of_N in E. rewrite E. lia.
  - apply Byte.of_N_None_iff in E. lia.
Qed.

(** A sample in the range of a signed byte is read back as it was appended. *)
Lemma signed8_byte_of_int (v : Z) :
  -128 <= v <= 127 -> signed8 (byte_of_int v) = v.
Proof.
  intros Hv. unfold signed8. rewrite byte_of_int_to_N.
  destruct (Z_lt_le_dec v 0) as [Hneg|Hpos].
  - replace (v mod 256) with (v + 256).
    + destruct (127 <? v + 256) eqn:E; [lia|]. apply Z.ltb_ge in E. lia.
    + apply Z.mod_unique with (q := -1); lia.
  - rewrite Z.mod_small by lia.
    destruct (127 <? v) eqn:E; [|reflexivity]. apply Z.ltb_lt in E. lia.
Qed.

Lemma signed8_range (b : byte) : -128 <= signed8 b <= 127.
Proof.
  unfold signed8. pose proof (Byte.to_N_bounded b) as Hb.
  destruct (127 <? Z.of_N (Byte.to_N b)) eqn:E.
  - apply Z.ltb_lt in E. lia.
  - apply Z.ltb_ge in E. lia.
Qed.

(** ** The dissimilarity metric *)

Section Dissimilarity.

Variable d : list byte.

Local Abbreviation term := (overlap_term d).

Lemma sum_upto_nonneg (n : nat) (f : nat -> Z) :
  (forall i, 0 <= f i) -> 0 <= sum_upto n f.
Proof.
  intros Hf. induction n as [|n IH]; simpl; [lia|].
  specialize (Hf n). lia.
Qed.

Lemma sum_upto_le (n : nat) (f : nat -> Z) (b : Z) :
  (forall i, f i <= b) -> 0 <= b -> sum_upto n f <= b * Z.of_nat n.
Proof.
  intros Hf Hb. induction n as [|n IH]; simpl sum_upto; [lia|].
  specialize (Hf n). lia.
Qed.

Lemma ptr8_load_tail (s i : nat) :
  (i + s < length d)%nat ->
  ptr8_load (skipn s d) i = Returns (Z.of_N (Byte.to_N (nth (i + s) d x00))).
Proof.
  intros Hi. unfold ptr8_load. rewrite nth_error_skipn.
  rewrite (nth_error_nth' d x00) by lia.
  replace (s + i)%nat with (i + s)%nat by lia. reflexivity.
Qed.

Lemma ptr8_load_head (m i : nat) :
  (i < m)%nat -> (i < length d)%nat ->
  ptr8_load (firstn m d) i = Returns (Z.of_N (Byte.to_N (nth i d x00))).
Proof.
  intros Hm Hi. unfold ptr8_load. rewrite nth_error_firstn.
  destruct (Nat.ltb_spec i m); [|lia].
  rewrite (nth_error_nth' d x00) by lia. reflexivity.
Qed.

(** The loop adds the terms of the indices it goes through. *)
Lemma _compare_loop_sum (s m : nat) :
  forall n i e,
    (i + n <= m)%nat -> (m + s <= length d)%nat ->
    _compare_loop (skipn s d) (firstn m d) i n e
    = Returns (e + (sum_upto (i + n) (term s) - sum_upto i (term s))).
Proof.
  induction n as [|n IH]; intros i e Hin Hm.
  - rewrite Nat.add_0_r. simpl. f_equal. lia.
  - cbn [_compare_loop].
    rewrite ptr8_load_tail by lia. cbn [obind].
    rewrite (ptr8_load_head m i) by lia. cbn [obind].
    rewrite IH by lia. f_equal.
    replace (i + S n)%nat with (S i + n)%nat by lia.
    cbn [sum_upto]. unfold overlap_term at 3, sample, signed8. cbn zeta.
    rewrite Z.pow_2_r. lia.
Qed.

(** For every shift from 1 on, [compare] returns the sum of the
    specification: the slices are [d[s:]] and [d[:len - s]], and the count
    is the length of both. *)
Lemma compare_spec (shift : Z) :
  1 <= shift -> PPG.compare d shift = Returns (spec_dissimilarity d shift).
Proof.
  intros Hs. unfold PPG.compare, _compare, slice_from, slice_to, slice_index,
    spec_dissimilarity.
  destruct (shift <? 0) eqn:E1; [apply Z.ltb_lt in E1; lia|].
  destruct (- shift <? 0) eqn:E2; [|apply Z.ltb_ge in E2; lia].
  set (s := Z.to_nat shift).
  destruct (Z_lt_le_dec shift (Z.of_nat (length d))) as [Hlt|Hge].
  - replace (Z.to_nat (Z.min shift (Z.of_nat (length d)))) with s by lia.
    replace (Z.to_nat (Z.max (- shift + Z.of_nat (length d)) 0))
      with (length d - s)%nat by lia.
    replace (Z.to_nat (Z.of_nat (length d) - shift))
      with (length d - s)%nat by lia.
    rewrite _compare_loop_sum by lia.
    f_equal. rewrite Nat.add_0_l. cbn [sum_upto]. unfold overlap_term. lia.
  - replace (Z.to_nat (Z.of_nat (length d) - shift)) with 0%nat by lia.
    replace (length d - s)%nat with 0%nat by lia.
    reflexivity.
Qed.

Lemma spec_dissimilarity_nonneg (shift : Z) : 0 <= spec_dissimilarity d shift.
Proof.
  unfold spec_dissimilarity. apply sum_upto_nonneg.
  intros i. apply Z.pow_even_nonneg. exists 1. reflexivity.
Qed.

(** The sum stays below [255^2] per term: for a buffer of less than 33025
    samples it fits the 31 bits of a native word, so the accumulator of the
    viper routine does not wrap. *)
Lemma spec_dissimilarity_bound (shift : Z) :
  spec_dissimilarity d shift <= 65025 * Z.of_nat (length d).
Proof.
  unfold spec_dissimilarity.
  etransitivity.
  - apply sum_upto_le with (b := 65025); [|lia].
    intros i. unfold sample.
    pose proof (signed8_range (nth (i + Z.to_nat shift) d x00)).
    pose proof (signed8_range (nth i d x00)).
    rewrite Z.pow_2_r. nia.
  - lia.
Qed.

(** At or past the end of the buffer nothing overlaps. *)
Lemma compare_past_end (shift : Z) :
  Z.of_nat (length d) <= shift -> PPG.compare d shift = Returns 0.
Proof.
  intros Hs. unfold PPG.compare, _compare.
  replace (Z.to_nat (Z.of_nat (length d) - shift)) with 0%nat by lia.
  reflexivity.
Qed.

End Dissimilarity.

(** ** The trough detector *)

Section Trough.

Variable d : list byte.

Local Abbreviation c := (spec_dissimilarity d).

Lemma spec_turns_up_iff (i : Z) :
  spec_turns_up d i = true <-> strict_local_min c (i - 1).
Proof.
  unfold spec_turns_up, strict_local_min, c.
  replace (i - 1 - 1) with (i - 2) by lia.
  replace (i - 1 + 1) with i by lia.
  rewrite andb_true_iff, Z.gtb_lt, Z.ltb_lt. tauto.
Qed.

Lemma spec_turns_up_false_iff (i : Z) :
  spec_turns_up d i = false <-> ~ strict_local_min c (i - 1).
Proof.
  rewrite <- spec_turns_up_iff. destruct (spec_turns_up d i); split;
    congruence.
Qed.

(** What [find] answers on a run of consecutive shifts. *)
Lemma find_shifts_from_some (f : Z -> bool) :
  forall n i r,
    find f (shifts_from i n) = Some r <->
    (i <= r < i + Z.of_nat n /\ f r = true /\
     forall j, i <= j < r -> f j = false).
Proof.
  induction n as [|n IH]; intros i r.
  - simpl. split; [discriminate|]. intros [H _]. lia.
  - cbn [shifts_from find]. destruct (f i) eqn:Ei.
    + split.
      * intros [= <-]. repeat split; [lia|lia|assumption|]. intros j Hj. lia.
      * intros (Hr & Hfr & Hfirst).
        destruct (Z.eq_dec i r) as [->|Hne]; [reflexivity|].
        specialize (Hfirst i). rewrite Hfirst in Ei by lia. discriminate.
    + rewrite IH. split.
      * intros (Hr & Hfr & Hfirst). repeat split; [lia|lia|assumption|].
        intros j Hj. destruct (Z.eq_dec j i) as [->|Hne]; [assumption|].
        apply Hfirst. lia.
      * intros (Hr & Hfr & Hfirst).
        assert (i <> r) by (intros ->; congruence).
        repeat split; [lia|lia|assumption|]. intros j Hj. apply Hfirst. lia.
Qed.

Lemma find_shifts_from_none (f : Z -> bool) :
  forall n i,
    find f (shifts_from i n) = None <->
    forall j, i <= j < i + Z.of_nat n -> f j = false.
Proof.
  induction n as [|n IH]; intros i.
  - simpl. split; [intros _ j Hj; lia|reflexivity].
  - cbn [shifts_from find]. destruct (f i) eqn:Ei.
    + split; [discriminate|]. intros H. rewrite H in Ei by lia. discriminate.
    + rewrite IH. split; intros H j Hj.
      * destruct (Z.eq_dec j i) as [->|Hne]; [assumption|]. apply H. lia.
      * apply H. lia.
Qed.

(** The loop of the program, with [z2] and [z1] holding the two previous
    values of the curve, is the search of the specification. *)
Lemma trough_loop_spec :
  forall n i,
    1 <= i ->
    PPG.trough_loop d (c (i - 2)) (c (i - 1)) i n
    = Returns (match find (spec_turns_up d) (shifts_from i n) with
               | Some r => r
               | None => -1
               end).
Proof.
  induction n as [|n IH]; intros i Hi; [reflexivity|].
  cbn [PPG.trough_loop shifts_from find].
  rewrite compare_spec by lia. cbn [obind].
  change ((c (i - 2) >? c (i - 1)) && (c (i - 1) <? spec_dissimilarity d i))
    with (spec_turns_up d i).
  destruct (spec_turns_up d i); [reflexivity|].
  specialize (IH (i + 1)).
  replace (i + 1 - 2) with (i - 1) in IH by lia.
  replace (i + 1 - 1) with i in IH by lia.
  apply IH. lia.
Qed.

Lemma trough_spec (mn mx : Z) :
  3 <= mn ->
  PPG.trough d mn mx
  = Returns (match spec_find_trough d mn mx with
             | Some r => r
             | None => -1
             end).
Proof.
  intros Hmn. unfold PPG.trough, spec_find_trough, shifts.
  rewrite !compare_spec by lia. cbn [obind].
  apply trough_loop_spec. lia.
Qed.

Lemma spec_find_trough_some (mn mx r : Z) :
  spec_find_trough d mn mx = Some r <->
  (mn <= r <= mx /\ strict_local_min c (r - 1) /\
   forall j, mn - 1 <= j < r - 1 -> ~ strict_local_min c j).
Proof.
  unfold spec_find_trough, shifts. rewrite find_shifts_from_some.
  rewrite spec_turns_up_iff. split; intros (Hr & Hmin & Hfirst).
  - split; [lia|]. split; [assumption|]. intros j Hj.
    replace j with (j + 1 - 1) by lia.
    apply spec_turns_up_false_iff, Hfirst. lia.
  - split; [lia|]. split; [assumption|]. intros j Hj.
    apply spec_turns_up_false_iff, Hfirst. lia.
Qed.

Lemma spec_find_trough_none (mn mx : Z) :
  spec_find_trough d mn mx = None <->
  forall j, mn - 1 <= j <= mx - 1 -> ~ strict_local_min c j.
Proof.
  unfold spec_find_trough, shifts. rewrite find_shifts_from_none.
  split; intros H j Hj.
  - replace j with (j + 1 - 1) by lia.
    apply spec_turns_up_false_iff, H. lia.
  - apply spec_turns_up_false_iff, H. lia.
Qed.

(** A strictly monotonic curve has no strict local minimum inside. *)
Lemma increasing_no_min (lo hi j : Z) :
  strictly_increasing c lo hi -> lo < j <= hi -> ~ strict_local_min c j.
Proof.
  intros Hinc Hj [Hl _]. specialize (Hinc (j - 1)).
  replace (j - 1 + 1) with j in Hinc by lia. lia.
Qed.

Lemma decreasing_no_min (lo hi j : Z) :
  strictly_decreasing c lo hi -> lo <= j < hi -> ~ strict_local_min c j.
Proof.
  intros Hdec Hj [_ Hr]. specialize (Hdec j). lia.
Qed.

End Trough.

(** The calls [trough] makes: the two seeds, then the shifts of the range up
    to the one it returns, or all of them when it returns -1. *)
Section TroughCalls.

Variable d : list byte.

Local Abbreviation c := (spec_dissimilarity d).

Lemma trough_loop_calls_spec :
  forall n i,
    1 <= i ->
    PPG.trough_loop_calls d (c (i - 2)) (c (i - 1)) i n
    = match find (spec_turns_up d) (shifts_from i n) with
      | Some r => shifts_from i (Z.to_nat (r + 1 - i))
      | None => shifts_from i n
      end.
Proof.
  induction n as [|n IH]; intros i Hi; [reflexivity|].
  cbn [PPG.trough_loop_calls shifts_from find].
  rewrite compare_spec by lia.
  change ((c (i - 2) >? c (i - 1)) && (c (i - 1) <? spec_dissimilarity d i))
    with (spec_turns_up d i).
  destruct (spec_turns_up d i).
  - replace (i + 1 - i) with 1 by lia. reflexivity.
  - specialize (IH (i + 1)).
    replace (i + 1 - 2) with (i - 1) in IH by lia.
    replace (i + 1 - 1) with i in IH by lia.
    fold (c i). rewrite IH by lia.
    destruct (find (spec_turns_up d) (shifts_from (i + 1) n)) as [r|] eqn:F;
      [|reflexivity].
    apply find_shifts_from_some in F. destruct F as (Hr & _).
    replace (Z.to_nat (r + 1 - i)) with (S (Z.to_nat (r + 1 - (i + 1))))
      by lia.
    reflexivity.
Qed.

Lemma trough_calls_spec (mn mx : Z) :
  3 <= mn ->
  PPG.trough_calls d mn mx
  = (mn - 2) :: (mn - 1) ::
    match spec_find_trough d mn mx with
    | Some r => shifts mn r
    | None => shifts mn mx
    end.
Proof.
  intros Hmn. unfold PPG.trough_calls, spec_find_trough, shifts.
  rewrite !compare_spec by lia.
  rewrite (trough_loop_calls_spec _ mn) by lia. reflexivity.
Qed.

End TroughCalls.

(** ** The estimator *)

Lemma floordiv_nonzero (a b : Z) : b <> 0 -> floordiv a b = Returns (a / b).
Proof.
  intros Hb. unfold floordiv. destruct (Z.eqb_spec b 0); [contradiction|].
  reflexivity.
Qed.

Lemma spec_find_trough_range (d : list byte) (mn mx r : Z) :
  spec_find_trough d mn mx = Some r -> mn <= r <= mx.
Proof. intros H. apply spec_find_trough_some in H. tauto. Qed.

(** The estimator never raises, reads the buffer only, and goes through the
    stages of the specification. *)
Lemma _get_heart_rate_spec (self : PPG.t) :
  PPG._get_heart_rate self = (Returns (spec_estimate (PPG.data self)), self).
Proof.
  unfold PPG._get_heart_rate, bind, gets, lift, spec_estimate.
  f_equal. set (d := PPG.data self).
  rewrite trough_spec by lia.
  destruct (spec_find_trough d 7 48) as [t0|] eqn:E0; cbn [obind];
    [|reflexivity].
  pose proof (spec_find_trough_range _ _ _ _ E0) as B0.
  destruct (Z.ltb_spec t0 0); [lia|].
  replace (t0 * 2) with (2 * t0) by lia.
  rewrite trough_spec by lia.
  destruct (spec_find_trough d (2 * t0 - 5) (2 * t0 + 5)) as [t1|] eqn:E1;
    cbn [obind]; [|reflexivity].
  pose proof (spec_find_trough_range _ _ _ _ E1) as B1.
  destruct (Z.ltb_spec t1 0); [lia|].
  rewrite floordiv_nonzero by lia. cbn [obind].
  replace (t1 * 3) with (3 * t1) by lia.
  assert (Hc2 : 13 <= 3 * t1 / 2) by (apply Z.div_le_lower_bound; lia).
  rewrite trough_spec by lia.
  destruct (spec_find_trough d (3 * t1 / 2 - 5) (3 * t1 / 2 + 4)) as [t2|] eqn:E2;
    cbn [obind]; [|reflexivity].
  pose proof (spec_find_trough_range _ _ _ _ E2) as B2.
  destruct (Z.ltb_spec t2 0); [lia|].
  rewrite floordiv_nonzero by lia. cbn [obind].
  replace (t2 * 4) with (4 * t2) by lia.
  assert (Hc3 : 10 <= 4 * t2 / 3) by (apply Z.div_le_lower_bound; lia).
  rewrite trough_spec by lia.
  destruct (spec_find_trough d (4 * t2 / 3 - 4) (4 * t2 / 3 + 4)) as [t3|] eqn:E3;
    cbn [obind].
  - pose proof (spec_find_trough_range _ _ _ _ E3) as B3.
    destruct (Z.ltb_spec t3 0); [lia|].
    rewrite floordiv_nonzero by lia. reflexivity.
  - change (-1 <? 0) with true. cbv iota.
    rewrite floordiv_nonzero by lia. reflexivity.
Qed.

Lemma get_heart_rate_spec (now : list Z) (self : PPG.t) :
  PPG.get_heart_rate now self
  = if Z.of_nat (length (PPG.data self)) <? 200 then (Returns None, self)
    else (Returns (spec_estimate (PPG.data self)), after_estimate now self).
Proof.
  unfold PPG.get_heart_rate, after_estimate.
  unfold bind at 1. unfold gets at 1.
  destruct (Z.of_nat (length (PPG.data self)) <? 200); [reflexivity|].
  unfold bind at 1. rewrite _get_heart_rate_spec.
  unfold bind, modify, gets, ret. cbn [PPG.debug PPG.set_data].
  destruct (PPG.debug self) as [[|x samples]|]; reflexivity.
Qed.

(** ** The detector on buffers *)



(** The curve of the zig-zag over the shifts 1 .. 6. *)
Lemma zigzag_curve :
  map (PPG.compare zigzag) [1; 2; 3; 4; 5; 6]
  = map Returns [275; 500; 225; 0; 175; 300].
Proof. vm_compute. reflexivity. Qed.

Lemma zigzag_single_trough : single_trough (spec_dissimilarity zigzag) 3 6 4.
Proof.
  split; [lia|]. split.
  - split; vm_compute; reflexivity.
  - intros j Hj [Hl Hr].
    assert (Hcases : j = 2 \/ j = 3 \/ j = 4 \/ j = 5) by lia.
    destruct Hcases as [-> | [-> | [-> | ->]]];
      [exfalso | exfalso | reflexivity | exfalso].
    + vm_compute in Hl. discriminate.
    + vm_compute in Hr. discriminate.
    + vm_compute in Hl. discriminate.
Qed.

(** From shift 2 to shift 4 the curve of the zig-zag falls. *)
Lemma zigzag_decreasing :
  strictly_decreasing (spec_dissimilarity zigzag) (4 - 2) 4.
Proof.
  intros i Hi. assert (Hcases : i = 2 \/ i = 3) by lia.
  destruct Hcases as [-> | ->]; vm_compute; reflexivity.
Qed.





(** On the triangle wave of period 24 the four stages find 25, 49, 73 and 97,
    and the estimate is (60*24*4)//97 = 59. *)
Lemma triangle_stages :
  spec_find_trough triangle 7 48 = Some 25 /\
  spec_find_trough triangle (2 * 25 - 5) (2 * 25 + 5) = Some 49 /\
  spec_find_trough triangle ((3 * 49) / 2 - 5) ((3 * 49) / 2 + 4) = Some 73 /\
  spec_find_trough triangle ((4 * 73) / 3 - 4) ((4 * 73) / 3 + 4) = Some 97 /\
  spec_estimate triangle = Some 59.
Proof. vm_compute. repeat split. Qed.


(** C2: below 200 buffered samples [get_heart_rate] returns None and leaves
    the session, hence the buffer, as it was; from 200 samples on it returns
    (a rate or None) and the buffer is empty afterwards. *)
Theorem get_heart_rate_buffer (now : list Z) (self : PPG.t) :
  (Z.of_nat (length (PPG.data self)) < 200 ->
   PPG.get_heart_rate now self = (Returns None, self))
  /\ (200 <= Z.of_nat (length (PPG.data self)) ->
      (exists hr, fst (PPG.get_heart_rate now self) = Returns hr)
      /\ length (PPG.data (snd (PPG.get_heart_rate now self))) = 0%nat).
Proof.
  rewrite get_heart_rate_spec.
  destruct (Z.ltb_spec (Z.of_nat (length (PPG.data self))) 200) as [Hlt|Hge].
  - split; [reflexivity|lia].
  - split; [lia|]. intros _. split; [eexists; reflexivity|].
    cbn [snd]. unfold after_estimate.
    destruct (PPG.debug self) as [[|x samples]|]; reflexivity.
Qed.

Lemma get_heart_rate_buffer_short :
  Z.of_nat (length (PPG.data (session_with 0 zigzag 20))) < 200 /\
  PPG.get_heart_rate [] (session_with 0 zigzag 20)
  = (Returns None, session_with 0 zigzag 20).
Proof.
  assert (H : Z.of_nat (length (PPG.data (session_with 0 zigzag 20))) < 200)
    by (vm_compute; reflexivity).
  split; [exact H|].
  exact (proj1 (get_heart_rate_buffer [] (session_with 0 zigzag 20)) H).
Defined.

(** What [get_heart_rate] leaves alone. *)
Lemma get_heart_rate_keeps (now : list Z) (self : PPG.t) :
  PPG._hpf (snd (PPG.get_heart_rate now self)) = PPG._hpf self
  /\ PPG._lpf (snd (PPG.get_heart_rate now self)) = PPG._lpf self
  /\ PPG._agc (snd (PPG.get_heart_rate now self)) = PPG._agc self
  /\ PPG._offset (snd (PPG.get_heart_rate now self)) = PPG._offset self.
Proof.
  rewrite get_heart_rate_spec.
  destruct (Z.of_nat (length (PPG.data self)) <? 200); cbn [snd];
    [repeat split|].
  unfold after_estimate.
  destruct (PPG.debug self) as [[|x samples]|]; repeat split.
Qed.

(** C10: [get_heart_rate] touches the buffer and the debug trace only: the
    registers of both filters, the gain control (its peak included) and the
    offset are after the call what they were before it, whether the buffer
    was emptied or not. *)
Theorem get_heart_rate_frame (now : list Z) (self : PPG.t) :
  let self' := snd (PPG.get_heart_rate now self) in
  PPG._hpf self' = PPG._hpf self
  /\ PPG._lpf self' = PPG._lpf self
  /\ PPG._agc self' = PPG._agc self
  /\ PPG._offset self' = PPG._offset self
  /\ (PPG.data self' = [] \/ PPG.data self' = PPG.data self).
Proof.
  cbv zeta. pose proof (get_heart_rate_keeps now self) as (Hh & Hl & Ha & Ho).
  repeat (split; [assumption|]).
  rewrite get_heart_rate_spec.
  destruct (Z.of_nat (length (PPG.data self)) <? 200); cbn [snd];
    [right; reflexivity|].
  left. unfold after_estimate.
  destruct (PPG.debug self) as [[|x samples]|]; reflexivity.
Qed.

(** The stages of the estimator on the slowing pulse: 48, 101 and 148, then
    a fourth scan around (4*148)//3 = 197 that finds nothing. *)
Lemma slowing_pulse_stages :
  length slowing_pulse = 200%nat /\
  PPG.trough slowing_pulse 7 48 = Returns 48 /\
  PPG.trough slowing_pulse (48 * 2 - 5) (48 * 2 + 5) = Returns 101 /\
  PPG.trough slowing_pulse ((101 * 3) / 2 - 5) ((101 * 3) / 2 + 4) = Returns 148 /\
  PPG.trough slowing_pulse ((148 * 4) / 3 - 4) ((148 * 4) / 3 + 4) = Returns (-1) /\
  PPG.trough_calls slowing_pulse ((148 * 4) / 3 - 4) ((148 * 4) / 3 + 4)
  = [191; 192; 193; 194; 195; 196; 197; 198; 199; 200; 201].
Proof. vm_compute. repeat split. Qed.

(** On that buffer the call answers (60*24*3)//148 = 29. *)
Lemma slowing_pulse_rate :
  fst (PPG.get_heart_rate [] (session_with 0 slowing_pulse 20))
  = Returns (Some 29).
Proof. vm_compute. reflexivity. Qed.



(** ** The gain control *)

Lemma gt_iff (a b : Q) : gt a b = true <-> (b < a)%Q.
Proof.
  unfold gt. rewrite negb_true_iff. split.
  - intros H. apply Qnot_le_lt. intros Hle. apply Qle_bool_iff in Hle.
    congruence.
  - intros H. destruct (Qle_bool a b) eqn:E; [|reflexivity].
    apply Qle_bool_iff in E. lra.
Qed.

Lemma gt_false_iff (a b : Q) : gt a b = false <-> (a <= b)%Q.
Proof.
  unfold gt. rewrite negb_false_iff. apply Qle_bool_iff.
Qed.

Lemma lt_iff (a b : Q) : lt a b = true <-> (a < b)%Q.
Proof. apply (gt_iff b a). Qed.

Lemma lt_false_iff (a b : Q) : lt a b = false <-> (b <= a)%Q.
Proof. apply (gt_false_iff b a). Qed.

Lemma truediv_nonzero (a b : Q) :
  ~ (b == 0)%Q -> truediv a b = Returns (a / b)%Q.
Proof.
  intros Hb. unfold truediv. destruct (Qeq_bool b 0) eqn:E; [|reflexivity].
  apply Qeq_bool_iff in E. contradiction.
Qed.

Lemma truediv_zero (a b : Q) :
  (b == 0)%Q -> truediv a b = Raises ZeroDivisionError.
Proof.
  intros Hb. unfold truediv. apply Qeq_bool_iff in Hb. rewrite Hb. reflexivity.
Qed.

Section Gain.

Variable self : PTAGC.t.
Variable spl : Q.

Local Abbreviation peak' := (updated_peak self spl).

Lemma PTAGC_step_unfold :
  PTAGC.step spl self
  = (if gt spl (peak' * PTAGC._threshold self)
        || lt spl (peak' * - PTAGC._threshold self)
     then Returns 0%Q
     else truediv (100 * spl) (2 * peak'),
     PTAGC.set_peak self peak').
Proof.
  unfold PTAGC.step, bind, gets, modify, ret, lift. cbn. fold peak'.
  destruct (gt spl _ || lt spl _); [reflexivity|].
  destruct (truediv _ _); reflexivity.
Qed.

Lemma PTAGC_step_state : snd (PTAGC.step spl self) = PTAGC.set_peak self peak'.
Proof. rewrite PTAGC_step_unfold. reflexivity. Qed.

Lemma PTAGC_step_peak : PTAGC._peak (snd (PTAGC.step spl self)) = peak'.
Proof. rewrite PTAGC_step_state. reflexivity. Qed.

(** When the stored peak is not zero the call returns. *)
Lemma PTAGC_step_returns :
  ~ (peak' == 0)%Q -> exists y, fst (PTAGC.step spl self) = Returns y.
Proof.
  intros Hp. rewrite PTAGC_step_unfold. cbn [fst].
  destruct (gt spl _ || lt spl _); [eexists; reflexivity|].
  rewrite truediv_nonzero by lra. eexists; reflexivity.
Qed.

Lemma peak'_nonzero :
  ~ (PTAGC._peak self == 0)%Q -> ~ (PTAGC._decay self == 0)%Q ->
  ~ (PTAGC._boost self == 0)%Q -> ~ (peak' == 0)%Q.
Proof.
  intros Hp Hd Hb H. unfold peak' in H.
  destruct (gt (Qabs spl) (PTAGC._peak self));
    apply Qmult_integral in H; tauto.
Qed.

Lemma peak'_positive :
  (0 < PTAGC._peak self)%Q -> (0 < PTAGC._decay self)%Q ->
  (0 < PTAGC._boost self)%Q -> (0 < peak')%Q.
Proof.
  intros Hp Hd Hb. unfold peak'.
  destruct (gt (Qabs spl) (PTAGC._peak self)); nra.
Qed.

End Gain.


(** With peak 20: the sample 100 raises the peak and is rejected; the
    sample 5 lets the peak decay to 19.42 and is scaled by 100 / 38.84; and
    a gain control whose peak is 0 raises on the sample 0. *)
Lemma PTAGC_step_examples :
  PTAGC.step 100 (PTAGC.mk 20 (971 # 1000) (1000 # 971) 2)
  = (Returns 0%Q, PTAGC.mk (20 * (1000 # 971)) (971 # 1000) (1000 # 971) 2)
  /\ PTAGC.step 5 (PTAGC.mk 20 (971 # 1000) (1000 # 971) 2)
     = (Returns (100 * 5 / (2 * (20 * (971 # 1000))))%Q,
        PTAGC.mk (20 * (971 # 1000)) (971 # 1000) (1000 # 971) 2)
  /\ PTAGC.step 0 (PTAGC.mk 0 (971 # 1000) (1000 # 971) 2)
     = (Raises ZeroDivisionError,
        PTAGC.mk (0 * (971 # 1000)) (971 # 1000) (1000 # 971) 2).
Proof. repeat split. Qed.





(** ** The filters and the pipeline *)

(** Section 4.1 of the specification: the Direct Form II step. *)
Lemma Biquad_step_spec (f : Biquad.t) (x b0 b1 b2 a1 a2 : Q) :
  Biquad._coeff f = (b0, b1, b2, a1, a2) ->
  let v := (x - a1 * Biquad._v1 f - a2 * Biquad._v2 f)%Q in
  Biquad.step x f
  = (Returns (b0 * v + b1 * Biquad._v1 f + b2 * Biquad._v2 f)%Q,
     Biquad.mk (Biquad._coeff f) v (Biquad._v1 f)).
Proof. intros Hc. unfold Biquad.step. rewrite Hc. reflexivity. Qed.

Lemma Biquad_step_returns (f : Biquad.t) (x : Q) :
  exists y f', Biquad.step x f = (Returns y, f').
Proof.
  destruct (Biquad._coeff f) as [[[[b0 b1] b2] a1] a2] eqn:Hc.
  rewrite (Biquad_step_spec f x _ _ _ _ _ Hc). eexists. eexists. reflexivity.
Qed.

Lemma preprocess_unfold (self : PPG.t) (spl : Z) :
  forall y1 hpf',
    Biquad.step (inject_Z (spl - PPG._offset self)) (PPG._hpf self)
    = (Returns y1, hpf') ->
    PPG.preprocess spl self
    = match PTAGC.step y1 (PPG._agc self) with
      | (Returns y2, agc') =>
          match Biquad.step y2 (PPG._lpf self) with
          | (Returns y3, lpf') =>
              (Returns (int y3),
               PPG.mk (PPG._offset self)
                 (PPG.data self ++ [byte_of_int (int y3)])
                 (traced self spl) hpf' agc' lpf' (PPG.hrs_data self))
          | (Raises e, lpf') =>
              (Raises e,
               PPG.mk (PPG._offset self) (PPG.data self) (traced self spl)
                 hpf' agc' lpf' (PPG.hrs_data self))
          end
      | (Raises e, agc') =>
          (Raises e,
           PPG.mk (PPG._offset self) (PPG.data self) (traced self spl)
             hpf' agc' (PPG._lpf self) (PPG.hrs_data self))
      end.
Proof.
  intros y1 hpf' E1.
  unfold PPG.preprocess, traced, bind, gets, modify, ret, on.
  destruct (PPG.debug self) as [samples|] eqn:Ed;
    cbn [PPG._offset PPG._hpf PPG.set_debug];
    rewrite E1; cbn [PPG._agc PPG.set_hpf PPG.set_debug];
    (destruct (PTAGC.step y1 (PPG._agc self)) as [[y2|e] agc'];
     [cbn [PPG._lpf PPG.set_agc PPG.set_hpf PPG.set_debug];
      destruct (Biquad.step y2 (PPG._lpf self)) as [[y3|e] lpf']|];
     unfold PPG.set_data, PPG.set_lpf, PPG.set_agc, PPG.set_hpf, PPG.set_debug;
     cbn [PPG.data PPG._offset PPG.debug PPG._hpf PPG._agc PPG._lpf
          PPG.hrs_data];
     rewrite ?Ed; reflexivity).
Qed.


(** Two calls on a fresh session with offset 100: the samples 105 and 110
    come out as 1 and 5, and both are in the buffer. *)
Lemma preprocess_twice :
  let s0 := session_with 100 [] 20 in
  let s1 := snd (PPG.preprocess 105 s0) in
  let s2 := snd (PPG.preprocess 110 s1) in
  fst (PPG.preprocess 105 s0) = Returns 1
  /\ fst (PPG.preprocess 110 s1) = Returns 5
  /\ PPG.data s2 = [byte_of_int 1; byte_of_int 5].
Proof. vm_compute. repeat split. Qed.

(** ** Exceptions *)

(** The constructor returns, and leaves the session at rest with peak 20. *)
Lemma init_session_with (spl : Z) :
  PPG.init spl = Returns (session_with spl [] 20).
Proof. reflexivity. Qed.

(** The gain control and the low-pass filter after a call, whatever its
    outcome. *)
Lemma preprocess_state (self : PPG.t) (spl : Z) :
  exists y1,
    PPG._agc (snd (PPG.preprocess spl self))
    = snd (PTAGC.step y1 (PPG._agc self))
    /\ match fst (PTAGC.step y1 (PPG._agc self)) with
       | Returns y2 =>
           PPG._lpf (snd (PPG.preprocess spl self))
           = snd (Biquad.step y2 (PPG._lpf self))
           /\ exists y3,
               fst (Biquad.step y2 (PPG._lpf self)) = Returns y3
               /\ fst (PPG.preprocess spl self) = Returns (int y3)
       | Raises _ =>
           PPG._lpf (snd (PPG.preprocess spl self)) = PPG._lpf self
       end.
Proof.
  destruct (Biquad_step_returns (PPG._hpf self)
              (inject_Z (spl - PPG._offset self))) as (y1 & hpf' & E1).
  exists y1. rewrite (preprocess_unfold self spl y1 hpf' E1).
  destruct (PTAGC.step y1 (PPG._agc self)) as [[y2|e] agc']; cbn [fst snd];
    [|split; reflexivity].
  destruct (Biquad_step_returns (PPG._lpf self) y2) as (y3 & lpf' & E3).
  rewrite E3. cbn [fst snd]. split; [reflexivity|]. split; [reflexivity|].
  exists y3. split; reflexivity.
Qed.

Lemma preprocess_returns (self : PPG.t) (spl : Z) :
  ~ (PTAGC._peak (PPG._agc self) == 0)%Q ->
  ~ (PTAGC._decay (PPG._agc self) == 0)%Q ->
  ~ (PTAGC._boost (PPG._agc self) == 0)%Q ->
  exists v,
    fst (PPG.preprocess spl self) = Returns v
    /\ PPG.data (snd (PPG.preprocess spl self))
       = PPG.data self ++ [byte_of_int v].
Proof.
  intros Hp Hd Hb.
  destruct (Biquad_step_returns (PPG._hpf self)
              (inject_Z (spl - PPG._offset self))) as (y1 & hpf' & E1).
  rewrite (preprocess_unfold self spl y1 hpf' E1).
  destruct (PTAGC_step_returns (PPG._agc self) y1) as (y2 & E2).
  { apply peak'_nonzero; assumption. }
  destruct (PTAGC.step y1 (PPG._agc self)) as [r agc']. cbn [fst] in E2.
  subst r.
  destruct (Biquad_step_returns (PPG._lpf self) y2) as (y3 & lpf' & E3).
  rewrite E3. eexists. split; reflexivity.
Qed.

Lemma get_heart_rate_returns (now : list Z) (self : PPG.t) :
  exists hr, fst (PPG.get_heart_rate now self) = Returns hr.
Proof.
  rewrite get_heart_rate_spec.
  destruct (Z.of_nat (length (PPG.data self)) <? 200); eexists; reflexivity.
Qed.

(** The gain control, fed within its clipping interval, answers within
    [-100, 100]. *)
Lemma agc_output_bounded (a : PTAGC.t) (spl y : Q) :
  (0 < updated_peak a spl)%Q -> PTAGC._threshold a = 2%Q ->
  fst (PTAGC.step spl a) = Returns y -> (-100 <= y <= 100)%Q.
Proof.
  intros Hp Ht. rewrite PTAGC_step_unfold. cbn [fst]. rewrite Ht.
  set (p := updated_peak a spl) in *.
  destruct (gt spl _ || lt spl _) eqn:E.
  - intros Hy. assert (Hy' : y = 0%Q) by congruence. rewrite Hy'. lra.
  - apply orb_false_iff in E. destruct E as [E1 E2].
    apply gt_false_iff in E1. apply lt_false_iff in E2.
    rewrite truediv_nonzero by lra. intros Hy.
    assert (Hy' : y = (100 * spl / (2 * p))%Q) by congruence. rewrite Hy'.
    split.
    + apply Qle_shift_div_l; lra.
    + apply Qle_shift_div_r; lra.
Qed.

(** The low-pass filter keeps its registers in the region, and its output
    within [-121, 121]. *)
Lemma lpf_step_bounded (f f' : Biquad.t) (x y : Q) :
  lpf_bounded f -> (-100 <= x <= 100)%Q ->
  Biquad.step x f = (Returns y, f') ->
  lpf_bounded f' /\ (-121 <= y <= 121)%Q.
Proof.
  intros (Hc & H1 & H2 & H3) Hx Hstep.
  rewrite (Biquad_step_spec f x _ _ _ _ _ Hc) in Hstep. cbv zeta in Hstep.
  injection Hstep as <- <-.
  unfold lpf_bounded. cbn [Biquad._coeff Biquad._v1 Biquad._v2].
  set (v1 := Biquad._v1 f) in *. set (v2 := Biquad._v2 f) in *.
  split; [split; [exact Hc|]|]; repeat split; lra.
Qed.

Lemma int_bounded (y : Q) (b : Z) :
  0 <= b -> (inject_Z (- b) <= y <= inject_Z b)%Q -> - b <= int y <= b.
Proof.
  intros Hb [Hlo Hhi]. destruct (int_truncates y) as [Hpos Hneg].
  destruct (Qlt_le_dec y 0) as [Hy|Hy].
  - destruct Hneg as [Hl Hu]; [apply Qlt_le_weak; exact Hy|].
    assert (H1 : int y - 1 < 0)
      by (rewrite Zlt_Qlt; eapply Qlt_trans; eassumption).
    assert (H2 : - b <= int y)
      by (rewrite Zle_Qle; eapply Qle_trans; eassumption).
    lia.
  - destruct Hpos as [Hl Hu]; [exact Hy|].
    assert (H1 : 0 < int y + 1)
      by (rewrite Zlt_Qlt; eapply Qle_lt_trans; eassumption).
    assert (H2 : int y <= b)
      by (rewrite Zle_Qle; eapply Qle_trans; eassumption).
    lia.
Qed.

(** One call of [preprocess] from a state of the invariant: it returns, the
    sample fits a signed byte, and the invariant holds again. *)
Lemma preprocess_inv (self : PPG.t) (spl : Z) :
  session_inv self ->
  session_inv (snd (PPG.preprocess spl self))
  /\ exists v, fst (PPG.preprocess spl self) = Returns v /\ -121 <= v <= 121.
Proof.
  intros ((Hp & Hd & Hb) & Ht & Hlpf).
  destruct (preprocess_state self spl) as (y1 & Hagc & Hrest).
  assert (Hp' : (0 < updated_peak (PPG._agc self) y1)%Q)
    by (apply peak'_positive; assumption).
  destruct (PTAGC_step_returns (PPG._agc self) y1) as (y2 & E2); [lra|].
  rewrite E2 in Hrest. destruct Hrest as (Hl & y3 & E3 & Hv).
  pose proof (agc_output_bounded _ _ _ Hp' Ht E2) as Hy2.
  destruct (Biquad.step y2 (PPG._lpf self)) as [r lpf'] eqn:Estep.
  cbn [fst snd] in E3, Hl. subst r.
  destruct (lpf_step_bounded _ _ _ _ Hlpf Hy2 Estep) as (Hlpf' & Hy3).
  split.
  - unfold session_inv. rewrite Hagc, Hl, PTAGC_step_state.
    cbn [PTAGC.set_peak PTAGC._peak PTAGC._decay PTAGC._boost
         PTAGC._threshold].
    split; [split; [exact Hp'|split; assumption]|].
    split; [exact Ht|exact Hlpf'].
  - exists (int y3). split; [exact Hv|].
    apply (int_bounded y3 121); [lia|]. exact Hy3.
Qed.

(** Every state a session is reached in satisfies the invariant. *)
Lemma reachable_inv (self : PPG.t) : reachable self -> session_inv self.
Proof.
  induction 1 as [spl self Hinit|self spl _ IH|self now _ IH|self _ IH].
  - rewrite init_session_with in Hinit. injection Hinit as <-.
    unfold session_inv, agc_live, lpf_bounded. cbn.
    repeat split; try reflexivity; discriminate.
  - apply preprocess_inv. exact IH.
  - unfold session_inv.
    destruct (get_heart_rate_keeps now self) as (_ & -> & -> & _). exact IH.
  - unfold PPG.enable_debug, bind, gets, modify, ret.
    destruct (PPG.debug self); exact IH.
Qed.

(** From the constructor on, no call raises, and every sample [preprocess]
    quantizes lies within the range of a signed byte: the buffer holds it as
    it is, and a range check on the append would never fire.  (Numbers being
    exact.) *)
Lemma reachable_calls_return (self : PPG.t) (spl : Z) (now : list Z) :
  reachable self ->
  (exists v,
      fst (PPG.preprocess spl self) = Returns v
      /\ -128 <= v <= 127
      /\ signed8 (byte_of_int v) = v
      /\ PPG.data (snd (PPG.preprocess spl self))
         = PPG.data self ++ [byte_of_int v])
  /\ (exists hr, fst (PPG.get_heart_rate now self) = Returns hr).
Proof.
  intros Hs. pose proof (reachable_inv self Hs) as Hinv.
  split; [|apply get_heart_rate_returns].
  destruct (preprocess_inv self spl Hinv) as (_ & v & Hv & Hrange).
  destruct Hinv as ((Hp & Hd & Hb) & _).
  destruct (preprocess_returns self spl) as (v' & Hv' & Hdata); [lra|lra|lra|].
  assert (v' = v) by congruence. subst v'.
  exists v. split; [exact Hv|]. split; [lia|].
  split; [apply signed8_byte_of_int; lia|exact Hdata].
Qed.




(** * Further properties *)

(** ** The biquad filter *)



(** The fixed point of a constant input. *)
Lemma Biquad_dc_step (f : Biquad.t) (k b0 b1 b2 a1 a2 : Q) :
  Biquad._coeff f = (b0, b1, b2, a1, a2) ->
  ~ (1 + a1 + a2 == 0)%Q ->
  (Biquad._v1 f == k / (1 + a1 + a2))%Q ->
  (Biquad._v2 f == k / (1 + a1 + a2))%Q ->
  exists y f',
    Biquad.step k f = (Returns y, f')
    /\ (y == k * (b0 + b1 + b2) / (1 + a1 + a2))%Q
    /\ (Biquad._v1 f' == k / (1 + a1 + a2))%Q
    /\ (Biquad._v2 f' == k / (1 + a1 + a2))%Q.
Proof.
  intros Ef Hd H1 H2.
  rewrite (Biquad_step_spec f k _ _ _ _ _ Ef). cbv zeta.
  do 2 eexists. split; [reflexivity|]. cbn [Biquad._v1 Biquad._v2].
  rewrite H1, H2. repeat split; try reflexivity; field; exact Hd.
Qed.

(** X2: whatever its coefficients, a filter whose registers are zero and
    whose input is 0 returns 0 and keeps its registers at zero. *)
Theorem Biquad_rest (f : Biquad.t) :
  (Biquad._v1 f == 0)%Q -> (Biquad._v2 f == 0)%Q ->
  exists y f',
    Biquad.step 0 f = (Returns y, f')
    /\ (y == 0)%Q /\ (Biquad._v1 f' == 0)%Q /\ (Biquad._v2 f' == 0)%Q.
Proof.
  intros H1 H2.
  destruct (Biquad._coeff f) as [[[[b0 b1] b2] a1] a2] eqn:Ef.
  rewrite (Biquad_step_spec f 0 _ _ _ _ _ Ef). cbv zeta.
  do 2 eexists. split; [reflexivity|]. cbn [Biquad._v1 Biquad._v2].
  rewrite H1, H2. repeat split; ring.
Qed.

Lemma Biquad_rest_lpf :
  (Biquad._v1 (Biquad.mk lpf_coeff 0 0) == 0)%Q
  /\ (Biquad._v2 (Biquad.mk lpf_coeff 0 0) == 0)%Q
  /\ exists y f',
      Biquad.step 0 (Biquad.mk lpf_coeff 0 0) = (Returns y, f')
      /\ (y == 0)%Q /\ (Biquad._v1 f' == 0)%Q /\ (Biquad._v2 f' == 0)%Q.
Proof.
  assert (H1 : (Biquad._v1 (Biquad.mk lpf_coeff 0 0) == 0)%Q) by reflexivity.
  assert (H2 : (Biquad._v2 (Biquad.mk lpf_coeff 0 0) == 0)%Q) by reflexivity.
  split; [exact H1|]. split; [exact H2|].
  exact (Biquad_rest (Biquad.mk lpf_coeff 0 0) H1 H2).
Defined.




(** ** The gain control, further *)

(** Comparisons do not see which fraction stands for a number. *)
Lemma gt_compat (a b a' b' : Q) :
  (a == a')%Q -> (b == b')%Q -> gt a b = gt a' b'.
Proof.
  intros Ha Hb. destruct (gt a' b') eqn:E.
  - apply gt_iff in E. apply gt_iff. lra.
  - apply gt_false_iff in E. apply gt_false_iff. lra.
Qed.

Lemma gt_scale (c a b : Q) : (0 < c)%Q -> gt (c * a) (c * b) = gt a b.
Proof.
  intros Hc. destruct (gt a b) eqn:E.
  - apply gt_iff in E. apply gt_iff. nra.
  - apply gt_false_iff in E. apply gt_false_iff. nra.
Qed.







Lemma updated_peak_scale (a : PTAGC.t) (c spl : Q) :
  (0 < c)%Q ->
  (updated_peak (PTAGC.set_peak a (c * PTAGC._peak a)) (c * spl)
   == c * updated_peak a spl)%Q.
Proof.
  intros Hc. unfold updated_peak.
  cbn [PTAGC.set_peak PTAGC._peak PTAGC._boost PTAGC._decay].
  rewrite (gt_compat (Qabs (c * spl)) (c * PTAGC._peak a)
             (c * Qabs spl) (c * PTAGC._peak a)).
  - rewrite gt_scale by exact Hc.
    destruct (gt (Qabs spl) (PTAGC._peak a)); ring.
  - rewrite Qabs_Qmult. rewrite (Qabs_pos c) by lra. reflexivity.
  - reflexivity.
Qed.



(** ** Samples and the dissimilarity, further *)

Lemma byte_of_int_signed8 (b : byte) : byte_of_int (signed8 b) = b.
Proof.
  unfold byte_of_int, signed8. pose proof (Byte.to_N_bounded b) as Hb.
  set (n := Byte.to_N b) in *.
  assert (Hm : (if 127 <? Z.of_N n then Z.of_N n - 256 else Z.of_N n) mod 256
               = Z.of_N n).
  { destruct (127 <? Z.of_N n) eqn:E.
    - apply Z.ltb_lt in E. symmetry. apply Z.mod_unique with (q := -1); lia.
    - apply Z.mod_small. lia. }
  rewrite Hm. rewrite N2Z.id. subst n. rewrite Byte.of_to_N. reflexivity.
Qed.

Lemma signed8_inj (a b : byte) : signed8 a = signed8 b -> a = b.
Proof.
  intros H. rewrite <- (byte_of_int_signed8 a), <- (byte_of_int_signed8 b).
  rewrite H. reflexivity.
Qed.

Lemma byte_of_int_period (v : Z) : byte_of_int (v + 256) = byte_of_int v.
Proof.
  unfold byte_of_int. replace (v + 256) with (v + 1 * 256) by lia.
  rewrite Z.mod_add by lia. reflexivity.
Qed.

(** X9: what the buffer stores and what [_compare] reads back are inverse
    to each other: an integer within -128..127 is read back as it was
    appended, every stored byte is the image of the value read from it, that
    value lies within -128..127, and integers 256 apart are stored alike. *)
Theorem sample_store_read :
  (forall v, -128 <= v <= 127 -> signed8 (byte_of_int v) = v)
  /\ (forall b, byte_of_int (signed8 b) = b)
  /\ (forall b, -128 <= signed8 b <= 127)
  /\ (forall v, byte_of_int (v + 256) = byte_of_int v).
Proof.
  split; [exact signed8_byte_of_int|]. split; [exact byte_of_int_signed8|].
  split; [exact signed8_range|exact byte_of_int_period].
Qed.

Lemma sample_store_read_example :
  -128 <= -56 <= 127 /\ signed8 (byte_of_int (-56)) = -56.
Proof.
  assert (H : -128 <= -56 <= 127) by lia.
  split; [exact H|]. exact (proj1 sample_store_read (-56) H).
Defined.

Lemma sum_upto_zero_iff (n : nat) (f : nat -> Z) :
  (forall i, 0 <= f i) ->
  (sum_upto n f = 0 <-> forall i, (i < n)%nat -> f i = 0).
Proof.
  intros Hf. induction n as [|n IH]; cbn [sum_upto].
  - split; [intros _ i Hi; lia|reflexivity].
  - pose proof (sum_upto_nonneg n f Hf) as Hs. pose proof (Hf n) as Hn.
    split.
    + intros H i Hi. assert (sum_upto n f = 0) by lia.
      destruct (Nat.eq_dec i n) as [->|Hne]; [lia|].
      apply IH; [assumption|lia].
    + intros H. rewrite (proj2 IH) by (intros i Hi; apply H; lia).
      rewrite H by lia. reflexivity.
Qed.

Lemma sum_upto_ext (n : nat) (f g : nat -> Z) :
  (forall i, (i < n)%nat -> f i = g i) -> sum_upto n f = sum_upto n g.
Proof.
  induction n as [|n IH]; intros H; cbn [sum_upto]; [reflexivity|].
  rewrite IH by (intros i Hi; apply H; lia). rewrite H by lia. reflexivity.
Qed.

Lemma spec_dissimilarity_zero_iff (d : list byte) (shift : Z) :
  spec_dissimilarity d shift = 0 <->
  forall i, (i + Z.to_nat shift < length d)%nat ->
            nth (i + Z.to_nat shift) d x00 = nth i d x00.
Proof.
  unfold spec_dissimilarity. rewrite sum_upto_zero_iff.
  - split; intros H i Hi.
    + apply signed8_inj. specialize (H i). unfold sample in H.
      assert (Hz : (signed8 (nth (i + Z.to_nat shift) d x00)
                    - signed8 (nth i d x00)) ^ 2 = 0) by (apply H; lia).
      rewrite Z.pow_2_r in Hz. nia.
    + unfold sample. rewrite H by lia. rewrite Z.sub_diag. reflexivity.
  - intros i. apply Z.pow_even_nonneg. exists 1. reflexivity.
Qed.





(** ** The detector and the estimator, further *)

(** X12: when every scanned shift is at least 1 (mn >= 3), [trough] returns
    either -1 or a shift of the range [mn, mx]; on an empty range (mx < mn)
    it returns -1. *)
Theorem trough_in_range (d : list byte) (mn mx : Z) :
  3 <= mn ->
  exists r,
    PPG.trough d mn mx = Returns r
    /\ (r = -1 \/ mn <= r <= mx)
    /\ (mx < mn -> r = -1).
Proof.
  intros Hmn. rewrite trough_spec by exact Hmn.
  destruct (spec_find_trough d mn mx) as [r|] eqn:E.
  - pose proof (spec_find_trough_range _ _ _ _ E) as Hr.
    exists r. split; [reflexivity|]. split; [right; exact Hr|]. lia.
  - exists (-1). split; [reflexivity|]. split; [left; reflexivity|].
    reflexivity.
Qed.

Lemma trough_in_range_zigzag :
  3 <= 3
  /\ exists r,
      PPG.trough zigzag 3 6 = Returns r
      /\ (r = -1 \/ 3 <= r <= 6)
      /\ (6 < 3 -> r = -1).
Proof.
  assert (H : 3 <= 3) by lia.
  split; [exact H|]. exact (trough_in_range zigzag 3 6 H).
Defined.

Lemma find_pointwise {A} (f g : A -> bool) (l : list A) :
  (forall x, f x = g x) -> find f l = find g l.
Proof.
  intros H. induction l as [|x l IH]; cbn [find]; [reflexivity|].
  rewrite H, IH. reflexivity.
Qed.

(** The estimate depends on the buffer through its dissimilarity curve
    only. *)
Lemma spec_estimate_curve (d d' : list byte) :
  (forall s, spec_dissimilarity d s = spec_dissimilarity d' s) ->
  spec_estimate d = spec_estimate d'.
Proof.
  intros H.
  assert (Hf : forall mn mx,
             spec_find_trough d mn mx = spec_find_trough d' mn mx).
  { intros mn mx. unfold spec_find_trough. apply find_pointwise.
    intros i. unfold spec_turns_up. rewrite !H. reflexivity. }
  unfold spec_estimate. rewrite Hf.
  destruct (spec_find_trough d' 7 48) as [t0|]; [|reflexivity].
  rewrite Hf.
  destruct (spec_find_trough d' (2 * t0 - 5) (2 * t0 + 5)) as [t1|];
    [|reflexivity].
  rewrite Hf.
  destruct (spec_find_trough d' (3 * t1 / 2 - 5) (3 * t1 / 2 + 4)) as [t2|];
    [|reflexivity].
  rewrite Hf. reflexivity.
Qed.

Lemma sample_map (l : list Z) (i : nat) :
  Forall (fun v => -128 <= v <= 127) l -> (i < length l)%nat ->
  sample (map byte_of_int l) i = nth i l 0.
Proof.
  intros Hl Hi. unfold sample.
  replace x00 with (byte_of_int 0) by reflexivity. rewrite map_nth.
  apply signed8_byte_of_int.
  apply (proj1 (Forall_nth _ l) Hl i 0 Hi).
Qed.

Lemma spec_dissimilarity_offset (l : list Z) (k : Z) (shift : Z) :
  Forall (fun v => -128 <= v <= 127) l ->
  Forall (fun v => -128 <= v <= 127) (map (Z.add k) l) ->
  spec_dissimilarity (map byte_of_int (map (Z.add k) l)) shift
  = spec_dissimilarity (map byte_of_int l) shift.
Proof.
  intros Hl Hk. unfold spec_dissimilarity. rewrite !length_map.
  apply sum_upto_ext. intros i Hi.
  rewrite !sample_map by (try assumption; rewrite ?length_map; lia).
  rewrite (nth_indep (map (Z.add k) l) 0 (Z.add k 0))
    by (rewrite length_map; lia).
  rewrite (nth_indep (map (Z.add k) l) 0 (Z.add k 0))
    by (rewrite length_map; lia).
  rewrite !map_nth. f_equal. lia.
Qed.

(** X13: a constant offset of the buffered samples changes nothing: when
    the samples l and the samples l + k all lie within -128..127, every
    dissimilarity (shift >= 1) and the result of [get_heart_rate] are the
    same for the two buffers. *)
Theorem estimate_offset_invariant (l : list Z) (k : Z) (now : list Z)
    (self : PPG.t) :
  Forall (fun v => -128 <= v <= 127) l ->
  Forall (fun v => -128 <= v <= 127) (map (Z.add k) l) ->
  (forall shift, 1 <= shift ->
     PPG.compare (map byte_of_int (map (Z.add k) l)) shift
     = PPG.compare (map byte_of_int l) shift)
  /\ fst (PPG.get_heart_rate now
            (PPG.set_data self (map byte_of_int (map (Z.add k) l))))
     = fst (PPG.get_heart_rate now (PPG.set_data self (map byte_of_int l))).
Proof.
  intros Hl Hk. split.
  - intros shift Hs. rewrite !compare_spec by exact Hs.
    rewrite spec_dissimilarity_offset by assumption. reflexivity.
  - rewrite !get_heart_rate_spec. cbn [PPG.data PPG.set_data].
    rewrite !length_map.
    destruct (Z.of_nat (length l) <? 200); [reflexivity|]. cbn [fst].
    f_equal. apply spec_estimate_curve. intros s.
    apply spec_dissimilarity_offset; assumption.
Qed.

Lemma estimate_offset_invariant_example :
  Forall (fun v => -128 <= v <= 127) [0; 5; 0; -5]
  /\ Forall (fun v => -128 <= v <= 127) (map (Z.add 100) [0; 5; 0; -5])
  /\ PPG.compare (map byte_of_int (map (Z.add 100) [0; 5; 0; -5])) 1
     = PPG.compare (map byte_of_int [0; 5; 0; -5]) 1.
Proof.
  assert (H1 : Forall (fun v => -128 <= v <= 127) [0; 5; 0; -5])
    by (repeat constructor; lia).
  assert (H2 : Forall (fun v => -128 <= v <= 127)
                 (map (Z.add 100) [0; 5; 0; -5]))
    by (repeat constructor; simpl; lia).
  assert (H3 : 1 <= 1) by lia.
  split; [exact H1|]. split; [exact H2|].
  exact (proj1 (estimate_offset_invariant [0; 5; 0; -5] 100 []
                  (session_with 0 [] 20) H1 H2) 1 H3).
Defined.

Lemma spec_dissimilarity_constant (b : byte) (n : nat) (s : Z) :
  spec_dissimilarity (repeat b n) s = 0.
Proof.
  apply spec_dissimilarity_zero_iff. intros i Hi.
  rewrite repeat_length in Hi. rewrite !nth_repeat_lt by lia. reflexivity.
Qed.

Lemma spec_estimate_constant (b : byte) (n : nat) :
  spec_estimate (repeat b n) = None.
Proof.
  unfold spec_estimate.
  replace (spec_find_trough (repeat b n) 7 48) with (@None Z); [reflexivity|].
  symmetry. apply find_shifts_from_none. intros j _.
  unfold spec_turns_up. rewrite !spec_dissimilarity_constant. reflexivity.
Qed.

(** X14: a flat signal gives no estimate: on a buffer of at least 200 equal
    samples [get_heart_rate] returns None, and the buffer is emptied all the
    same. *)
Theorem flat_buffer_no_estimate (b : byte) (n : nat) (now : list Z)
    (self : PPG.t) :
  (200 <= n)%nat ->
  fst (PPG.get_heart_rate now (PPG.set_data self (repeat b n))) = Returns None
  /\ PPG.data (snd (PPG.get_heart_rate now (PPG.set_data self (repeat b n))))
     = [].
Proof.
  intros Hn. rewrite get_heart_rate_spec. cbn [PPG.data PPG.set_data].
  rewrite repeat_length.
  destruct (Z.ltb_spec (Z.of_nat n) 200); [lia|]. cbn [fst snd].
  rewrite spec_estimate_constant. split; [reflexivity|].
  unfold after_estimate. cbn [PPG.debug PPG.set_data].
  destruct (PPG.debug self) as [[|x samples]|]; reflexivity.
Qed.

Lemma flat_buffer_no_estimate_example :
  (200 <= 240)%nat
  /\ fst (PPG.get_heart_rate []
            (PPG.set_data (session_with 0 [] 20) (repeat x07 240)))
     = Returns None
  /\ PPG.data
       (snd (PPG.get_heart_rate []
               (PPG.set_data (session_with 0 [] 20) (repeat x07 240))))
     = [].
Proof.
  assert (H : (200 <= 240)%nat) by lia.
  split; [exact H|].
  exact (flat_buffer_no_estimate x07 240 [] (session_with 0 [] 20) H).
Defined.

Lemma spec_estimate_range (d : list byte) (r : Z) :
  spec_estimate d = Some r -> 27 <= r <= 960.
Proof.
  unfold spec_estimate, spec_bpm.
  destruct (spec_find_trough d 7 48) as [t0|] eqn:E0; [|discriminate].
  pose proof (spec_find_trough_range _ _ _ _ E0) as B0.
  destruct (spec_find_trough d (2 * t0 - 5) (2 * t0 + 5)) as [t1|] eqn:E1;
    [|discriminate].
  pose proof (spec_find_trough_range _ _ _ _ E1) as B1.
  assert (C2 : 13 <= 3 * t1 / 2 <= 151).
  { split; [apply Z.div_le_lower_bound; lia|].
    apply Z.lt_succ_r. apply Z.div_lt_upper_bound; lia. }
  destruct (spec_find_trough d (3 * t1 / 2 - 5) (3 * t1 / 2 + 4)) as [t2|]
    eqn:E2; [|discriminate].
  pose proof (spec_find_trough_range _ _ _ _ E2) as B2.
  assert (C3 : 10 <= 4 * t2 / 3 <= 206).
  { split; [apply Z.div_le_lower_bound; lia|].
    apply Z.lt_succ_r. apply Z.div_lt_upper_bound; lia. }
  destruct (spec_find_trough d (4 * t2 / 3 - 4) (4 * t2 / 3 + 4)) as [t3|]
    eqn:E3; intros [= <-].
  - pose proof (spec_find_trough_range _ _ _ _ E3) as B3. split.
    + apply Z.div_le_lower_bound; lia.
    + apply Z.div_le_upper_bound; lia.
  - split.
    + apply Z.div_le_lower_bound; lia.
    + apply Z.le_trans with 540; [apply Z.div_le_upper_bound; lia|lia].
Qed.

(** X15: whatever the buffer holds, a rate that [get_heart_rate] reports
    lies between 27 and 960 beats per minute: the search windows keep the
    period of three cycles within 8..155 samples and that of four cycles
    within 6..210. *)
Theorem reported_rate_range (now : list Z) (self : PPG.t) (r : Z) :
  fst (PPG.get_heart_rate now self) = Returns (Some r) -> 27 <= r <= 960.
Proof.
  rewrite get_heart_rate_spec.
  destruct (Z.of_nat (length (PPG.data self)) <? 200); cbn [fst];
    [discriminate|].
  intros [= H]. exact (spec_estimate_range _ _ H).
Qed.

Lemma reported_rate_range_triangle :
  fst (PPG.get_heart_rate [] (session_with 0 triangle 20)) = Returns (Some 59)
  /\ 27 <= 59 <= 960.
Proof.
  assert (H : fst (PPG.get_heart_rate [] (session_with 0 triangle 20))
              = Returns (Some 59)) by (vm_compute; reflexivity).
  split; [exact H|].
  exact (reported_rate_range [] (session_with 0 triangle 20) 59 H).
Defined.

(** X16: a second call of [get_heart_rate] right after a first one returns
    None and changes nothing, whatever the first one did: either the buffer
    was too short and still is, or it has just been emptied. *)
Theorem get_heart_rate_twice (now1 now2 : list Z) (self : PPG.t) :
  PPG.get_heart_rate now2 (snd (PPG.get_heart_rate now1 self))
  = (Returns None, snd (PPG.get_heart_rate now1 self)).
Proof.
  rewrite (get_heart_rate_spec now1 self).
  destruct (Z.ltb_spec (Z.of_nat (length (PPG.data self))) 200) as [Hlt|Hge];
    cbn [snd]; rewrite get_heart_rate_spec.
  - destruct (Z.ltb_spec (Z.of_nat (length (PPG.data self))) 200);
      [reflexivity|lia].
  - replace (PPG.data (after_estimate now1 self)) with (@nil byte);
      [reflexivity|].
    unfold after_estimate.
    destruct (PPG.debug self) as [[|x samples]|]; reflexivity.
Qed.

(** ** The session, further *)

Lemma Biquad_step_coeff (f : Biquad.t) (x : Q) :
  Biquad._coeff (snd (Biquad.step x f)) = Biquad._coeff f.
Proof.
  destruct (Biquad._coeff f) as [[[[b0 b1] b2] a1] a2] eqn:Ef.
  rewrite (Biquad_step_spec f x _ _ _ _ _ Ef). cbn. exact Ef.
Qed.

(** What a call of [preprocess] leaves, whatever its outcome. *)
Lemma preprocess_leaves (self : PPG.t) (spl : Z) :
  PPG._offset (snd (PPG.preprocess spl self)) = PPG._offset self
  /\ PPG.hrs_data (snd (PPG.preprocess spl self)) = PPG.hrs_data self
  /\ PPG.debug (snd (PPG.preprocess spl self)) = traced self spl
  /\ Biquad._coeff (PPG._hpf (snd (PPG.preprocess spl self)))
     = Biquad._coeff (PPG._hpf self)
  /\ Biquad._coeff (PPG._lpf (snd (PPG.preprocess spl self)))
     = Biquad._coeff (PPG._lpf self)
  /\ PTAGC._decay (PPG._agc (snd (PPG.preprocess spl self)))
     = PTAGC._decay (PPG._agc self)
  /\ PTAGC._boost (PPG._agc (snd (PPG.preprocess spl self)))
     = PTAGC._boost (PPG._agc self)
  /\ PTAGC._threshold (PPG._agc (snd (PPG.preprocess spl self)))
     = PTAGC._threshold (PPG._agc self).
Proof.
  destruct (Biquad.step (inject_Z (spl - PPG._offset self)) (PPG._hpf self))
    as [r1 hpf'] eqn:E1.
  pose proof (Biquad_step_coeff (PPG._hpf self)
                (inject_Z (spl - PPG._offset self))) as Hh.
  rewrite E1 in Hh. cbn [snd] in Hh.
  destruct (Biquad_step_returns (PPG._hpf self)
              (inject_Z (spl - PPG._offset self))) as (y1 & hpf'' & E1').
  rewrite E1 in E1'. injection E1' as -> <-.
  rewrite (preprocess_unfold self spl y1 hpf' E1).
  pose proof (PTAGC_step_state (PPG._agc self) y1) as Ha.
  destruct (PTAGC.step y1 (PPG._agc self)) as [[y2|e] agc'];
    cbn [snd] in Ha; subst agc'.
  - pose proof (Biquad_step_coeff (PPG._lpf self) y2) as Hl.
    destruct (Biquad.step y2 (PPG._lpf self)) as [[y3|e] lpf'];
      cbn [snd] in Hl; cbn; repeat split; assumption.
  - cbn. repeat split; assumption.
Qed.

(** X17: a call of [preprocess], whether it returns or raises, changes
    only the filter registers, the peak, the buffer and the debug trace: the
    offset, the coefficients of both filters, the decay, boost and threshold
    of the gain control and the log file are what they were; and the debug
    trace, when there is one, has the raw sample (its low sixteen bits)
    appended. *)
Theorem preprocess_frame (self : PPG.t) (spl : Z) :
  PPG._offset (snd (PPG.preprocess spl self)) = PPG._offset self
  /\ PPG.hrs_data (snd (PPG.preprocess spl self)) = PPG.hrs_data self
  /\ PPG.debug (snd (PPG.preprocess spl self))
     = match PPG.debug self with
       | Some samples => Some (samples ++ [spl mod 65536])
       | None => None
       end
  /\ Biquad._coeff (PPG._hpf (snd (PPG.preprocess spl self)))
     = Biquad._coeff (PPG._hpf self)
  /\ Biquad._coeff (PPG._lpf (snd (PPG.preprocess spl self)))
     = Biquad._coeff (PPG._lpf self)
  /\ PTAGC._decay (PPG._agc (snd (PPG.preprocess spl self)))
     = PTAGC._decay (PPG._agc self)
  /\ PTAGC._boost (PPG._agc (snd (PPG.preprocess spl self)))
     = PTAGC._boost (PPG._agc self)
  /\ PTAGC._threshold (PPG._agc (snd (PPG.preprocess spl self)))
     = PTAGC._threshold (PPG._agc self).
Proof. exact (preprocess_leaves self spl). Qed.

Lemma feed_app (l1 l2 : list Z) (self : PPG.t) :
  feed (l1 ++ l2) self = feed l2 (feed l1 self).
Proof.
  revert self. induction l1 as [|x l1 IH]; intros self; [reflexivity|].
  cbn [feed app]. apply IH.
Qed.

Lemma feed_debug (l : list Z) :
  forall self,
    PPG.debug (feed l self)
    = match PPG.debug self with
      | Some t => Some (t ++ map half_of_int l)
      | None => None
      end
    /\ PPG.hrs_data (feed l self) = PPG.hrs_data self
    /\ PPG._offset (feed l self) = PPG._offset self.
Proof.
  induction l as [|x l IH]; intros self; cbn [feed map].
  - destruct (PPG.debug self); rewrite ?app_nil_r; repeat split.
  - destruct (IH (snd (PPG.preprocess x self))) as (Hd & Hf & Ho).
    destruct (preprocess_leaves self x) as (Ho' & Hf' & Hd' & _).
    rewrite Hd, Hf, Ho, Hd', Hf', Ho'. unfold traced.
    destruct (PPG.debug self); [rewrite <- app_assoc|]; repeat split.
Qed.

(** In a session every fed sample lands in the buffer, within the range of
    a signed byte. *)
Lemma feed_reachable (l : list Z) :
  forall self,
    reachable self ->
    reachable (feed l self)
    /\ exists vs,
        PPG.data (feed l self) = PPG.data self ++ map byte_of_int vs
        /\ length vs = length l
        /\ Forall (fun v => -121 <= v <= 121) vs.
Proof.
  induction l as [|x l IH]; intros self Hs; cbn [feed].
  - split; [exact Hs|]. exists []. rewrite app_nil_r. repeat split.
    constructor.
  - destruct (IH _ (reach_preprocess self x Hs)) as (Hr & vs & Hd & Hlen & Hv).
    split; [exact Hr|].
    destruct (preprocess_inv self x (reachable_inv self Hs))
      as (_ & v & Hret & Hrange).
    destruct (reachable_inv self Hs) as ((Hp & Hdk & Hb) & _).
    destruct (preprocess_returns self x) as (v' & Hret' & Hdata);
      [lra|lra|lra|].
    assert (v' = v) by congruence. subst v'.
    exists (v :: vs). rewrite Hd, Hdata, <- app_assoc. cbn [map app length].
    split; [reflexivity|]. split; [lia|]. constructor; assumption.
Qed.

(** X18: the debug trace mirrors the raw samples: after [preprocess] has
    been called on the samples l in turn, a trace t has become t followed by
    the samples of l (each reduced to sixteen bits), in order, whether the
    calls returned or raised; a session without a trace still has none, and
    the log file and the offset are untouched. *)
Theorem feed_trace (l : list Z) (self : PPG.t) :
  PPG.debug (feed l self)
  = match PPG.debug self with
    | Some t => Some (t ++ map (fun spl => spl mod 65536) l)
    | None => None
    end
  /\ PPG.hrs_data (feed l self) = PPG.hrs_data self
  /\ PPG._offset (feed l self) = PPG._offset self.
Proof. exact (feed_debug l self). Qed.





(** ** The application *)

(** A sub-tick, once the sample has been preprocessed. *)
Lemma _subtick_unfold (theme : HeartApp.theme_key -> Z) (reading : Z)
    (now : list Z) (app : HeartApp.t) (v : Z) (p1 : PPG.t) :
  PPG.preprocess reading (HeartApp._hrdata app) = (Returns v, p1) ->
  HeartApp._subtick theme reading now app
  = (Returns tt,
     if Z.of_nat (length (PPG.data p1)) >=? 240 then
       HeartApp.mk (HeartApp._debug app) (after_estimate now p1)
         (if HeartApp._x app + 2 >=? 240 then 0 else HeartApp._x app + 2)
         (HeartApp.screen app
          ++ [HeartApp.set_color (theme HeartApp.bright);
              HeartApp.string_bpm (spec_estimate (PPG.data p1)) 0 6 240]
          ++ graph_calls theme v (HeartApp._x app))
     else
       HeartApp.mk (HeartApp._debug app) p1
         (if HeartApp._x app + 2 >=? 240 then 0 else HeartApp._x app + 2)
         (HeartApp.screen app ++ graph_calls theme v (HeartApp._x app))).
Proof.
  intros Hpre.
  unfold HeartApp._subtick, bind, on, gets, HeartApp.draw, modify, ret.
  rewrite Hpre. cbn [HeartApp._hrdata HeartApp.set_hrdata].
  unfold graph_calls.
  destruct (Z.of_nat (length (PPG.data p1)) >=? 240) eqn:Elen.
  - cbn [HeartApp._hrdata HeartApp.set_hrdata HeartApp._debug HeartApp._x
         HeartApp.screen].
    rewrite get_heart_rate_spec.
    destruct (Z.ltb_spec (Z.of_nat (length (PPG.data p1))) 200) as [Hlt|Hge];
      [apply Z.geb_le in Elen; lia|].
    cbn [HeartApp._hrdata HeartApp.set_hrdata HeartApp._debug HeartApp._x
         HeartApp.screen HeartApp.set_x].
    destruct (HeartApp._x app <? 238);
      cbn [HeartApp._hrdata HeartApp.set_hrdata HeartApp._debug HeartApp._x
           HeartApp.screen HeartApp.set_x];
      unfold HeartApp.set_x;
      cbn [HeartApp._hrdata HeartApp._debug HeartApp._x HeartApp.screen];
      rewrite <- ?app_assoc; reflexivity.
  - cbn [HeartApp._hrdata HeartApp.set_hrdata HeartApp._debug HeartApp._x
         HeartApp.screen HeartApp.set_x].
    destruct (HeartApp._x app <? 238);
      cbn [HeartApp._hrdata HeartApp.set_hrdata HeartApp._debug HeartApp._x
           HeartApp.screen HeartApp.set_x];
      unfold HeartApp.set_x;
      cbn [HeartApp._hrdata HeartApp._debug HeartApp._x HeartApp.screen];
      rewrite <- ?app_assoc; reflexivity.
Qed.

Lemma _subtick_raises (theme : HeartApp.theme_key -> Z) (reading : Z)
    (now : list Z) (app : HeartApp.t) (e : exn) (p1 : PPG.t) :
  PPG.preprocess reading (HeartApp._hrdata app) = (Raises e, p1) ->
  HeartApp._subtick theme reading now app
  = (Raises e, HeartApp.set_hrdata app p1).
Proof.
  intros Hpre. unfold HeartApp._subtick, bind, on. rewrite Hpre. reflexivity.
Qed.

Lemma graph_calls_in_screen (theme : HeartApp.theme_key -> Z) (v x : Z) :
  0 <= x <= 239 -> Forall in_screen (graph_calls theme v x).
Proof.
  intros Hx. unfold graph_calls.
  assert (Hh : 0 <= (if (v >? 104) || (v <? -104) then 0 else v) + 104 <= 208).
  { destruct (v >? 104) eqn:E1; destruct (v <? -104) eqn:E2; cbn [orb]; lia. }
  set (h := (if (v >? 104) || (v <? -104) then 0 else v) + 104) in *.
  destruct (Z.ltb_spec x 238); cbn [app];
    repeat constructor; cbn [in_screen]; lia.
Qed.

(** X21: whatever the sample and the column (0..239) and whether
    it returns or raises, every call a sub-tick makes on the drawable stays
    within the 240 x 240 screen: the fills have a height and a width that are
    not negative and end at or before column 240 and row 240. *)
Theorem subtick_draws_on_screen (theme : HeartApp.theme_key -> Z)
    (reading : Z) (now : list Z) (app : HeartApp.t) :
  0 <= HeartApp._x app <= 239 ->
  exists calls,
    HeartApp.screen (snd (HeartApp._subtick theme reading now app))
    = HeartApp.screen app ++ calls
    /\ Forall in_screen calls.
Proof.
  intros Hx.
  destruct (PPG.preprocess reading (HeartApp._hrdata app)) as [[v|e] p1]
    eqn:Hpre.
  - rewrite (_subtick_unfold theme reading now app v p1 Hpre). cbn [snd].
    pose proof (graph_calls_in_screen theme v (HeartApp._x app) Hx) as Hg.
    destruct (Z.of_nat (length (PPG.data p1)) >=? 240); cbn [HeartApp.screen].
    + eexists. split; [reflexivity|].
      apply Forall_app. split; [|exact Hg].
      repeat constructor; cbn [in_screen]; lia.
    + eexists. split; [reflexivity|exact Hg].
  - rewrite (_subtick_raises theme reading now app e p1 Hpre). cbn.
    exists []. rewrite app_nil_r. split; [reflexivity|constructor].
Qed.

Lemma subtick_draws_on_screen_example :
  0 <= HeartApp._x (HeartApp.mk false (session_with 100 [] 20) 238 []) <= 239
  /\ exists calls,
      HeartApp.screen
        (snd (HeartApp._subtick (fun _ => 7) 105 []
                (HeartApp.mk false (session_with 100 [] 20) 238 [])))
      = HeartApp.screen (HeartApp.mk false (session_with 100 [] 20) 238 [])
        ++ calls
      /\ Forall in_screen calls.
Proof.
  assert (H : 0 <= HeartApp._x
                     (HeartApp.mk false (session_with 100 [] 20) 238 [])
              <= 239) by (cbn; lia).
  split; [exact H|].
  exact (subtick_draws_on_screen (fun _ => 7) 105 []
           (HeartApp.mk false (session_with 100 [] 20) 238 []) H).
Defined.

(** One sub-tick of an application whose session comes from [PPG(spl)] and
    holds less than 240 samples. *)
Lemma subtick_session (theme : HeartApp.theme_key -> Z) (reading : Z)
    (now : list Z) (app : HeartApp.t) :
  reachable (HeartApp._hrdata app) ->
  (length (PPG.data (HeartApp._hrdata app)) < 240)%nat ->
  exists app',
    HeartApp._subtick theme reading now app = (Returns tt, app')
    /\ reachable (HeartApp._hrdata app')
    /\ length (PPG.data (HeartApp._hrdata app'))
       = (if S (length (PPG.data (HeartApp._hrdata app))) =? 240 then 0
          else S (length (PPG.data (HeartApp._hrdata app))))%nat
    /\ HeartApp._x app'
       = (if HeartApp._x app + 2 >=? 240 then 0 else HeartApp._x app + 2)
    /\ HeartApp._debug app' = HeartApp._debug app.
Proof.
  intros Hs Hlen.
  destruct (reachable_calls_return (HeartApp._hrdata app) reading now Hs)
    as ((v & Hv & _ & _ & Hdata) & _).
  destruct (PPG.preprocess reading (HeartApp._hrdata app)) as [r p1] eqn:Hpre.
  cbn [fst snd] in Hv, Hdata. subst r.
  assert (Hs1 : reachable p1).
  { pose proof (reach_preprocess _ reading Hs) as H. rewrite Hpre in H.
    exact H. }
  assert (Hl1 : length (PPG.data p1)
                = S (length (PPG.data (HeartApp._hrdata app))))
    by (rewrite Hdata, length_app; cbn; lia).
  rewrite (_subtick_unfold theme reading now app v p1 Hpre). eexists.
  split; [reflexivity|]. rewrite Hl1.
  destruct (Nat.eqb_spec (S (length (PPG.data (HeartApp._hrdata app)))) 240)
    as [E|E].
  - rewrite E. cbn [Z.of_nat]. change (Z.pos _ >=? 240) with true. cbv iota.
    cbn [HeartApp._hrdata HeartApp._x HeartApp._debug].
    split.
    + pose proof (reach_get_heart_rate p1 now Hs1) as H.
      rewrite get_heart_rate_spec in H. rewrite Hl1, E in H. exact H.
    + split; [|split; reflexivity].
      unfold after_estimate.
      destruct (PPG.debug p1) as [[|x samples]|]; reflexivity.
  - destruct (Z.geb_spec
                (Z.of_nat (S (length (PPG.data (HeartApp._hrdata app))))) 240);
      [lia|].
    cbn [HeartApp._hrdata HeartApp._x HeartApp._debug].
    split; [exact Hs1|]. split; [exact Hl1|]. split; reflexivity.
Qed.




